(** * zi5: PPE detection worker and dashboard relay

    A shallow embedding of [modules/ppe_worker.py] (class [PPEDetector]) and
    of the stats and image routes of [routers/dashboard.py], together with
    the properties of the intake / inference / result pipeline and of the
    real-time relay.

    Conventions of the embedding.
    - Python floats that the worker compares (box confidences, the
      configured threshold) are finite; they are modelled by the rationals
      [Q], on which the comparisons [>] and [>=] agree with the float ones.
    - A Python [dict] with string keys is a [gmap string _].
    - The Redis server is a record holding the keys the program touches; a
      Redis call may raise (connection loss), decided by an oracle of the
      environment.
    - Library functions the program calls but does not define
      ([json.loads], [json.dumps], [cv2.imread], [YOLO.predict],
      [time.time], [gather_stats], [redis.xread]) are fields of an
      environment record. *)

From Stdlib Require Import ZArith QArith Qround Qminmax List String Ascii Bool Lia.
From Stdlib Require Import DecimalString.
From stdpp Require Import gmap strings.
Import ListNotations.

Local Open Scope string_scope.
Local Open Scope list_scope.
Local Open Scope Z_scope.

(** ** Python values used by the program *)

Module Py.

(** [a >= b] and [a > b] on finite floats. *)
Definition ge (a b : Q) : bool := Qle_bool b a.
Definition gt (a b : Q) : bool := negb (Qle_bool a b).

(** [int(x)] on a float: truncation towards zero. *)
Definition int (x : Q) : Z :=
  if Qle_bool 0 x then Qfloor x else Qceiling x.

(** [s.startswith(p)]. *)
Definition startswith (p s : string) : bool := String.prefix p s.

(** [d.get(k, default)] where the stored value may itself be [None]:
    [None] is "key absent", [Some None] is "key present, value None". *)
Definition get_default {A} (field : option (option A)) (default : option A)
  : option A :=
  match field with
  | Some v => v
  | None => default
  end.

(** Truthiness of an optional list ([not tasks] is its negation). *)
Definition truthy_list {A} (v : option (list A)) : bool :=
  match v with
  | Some (_ :: _) => true
  | _ => false
  end.

(** Truthiness of an optional string. *)
Definition truthy_str (v : option string) : bool :=
  match v with
  | Some (String _ _) => true
  | _ => false
  end.

(** [bytes] and [str] are distinct types in Python 3. *)
Inductive text :=
| Bytes (s : string)
| Str (s : string).

(** [x.decode() if isinstance(x, bytes) else x]. *)
Definition decode_if_bytes (x : text) : string :=
  match x with
  | Bytes s => s
  | Str s => s
  end.

Definition truthy_text (v : option text) : bool :=
  match v with
  | Some (Bytes (String _ _)) | Some (Str (String _ _)) => true
  | _ => false
  end.

(** [a or b]. *)
Definition or_text (a b : option text) : option text :=
  if truthy_text a then a else b.

End Py.

(** ** pathlib / os.path on POSIX paths *)

Module PathLib.

Definition slash : ascii := "/"%char.

(** Components of a path: split on ["/"]. *)
Fixpoint split_aux (s : string) (cur : string) : list string :=
  match s with
  | EmptyString => [cur]
  | String c rest =>
      if Ascii.eqb c slash
      then cur :: split_aux rest EmptyString
      else split_aux rest (String.append cur (String c EmptyString))
  end.

Definition split (s : string) : list string := split_aux s EmptyString.

(** [Path(p).is_absolute()]. *)
Definition is_absolute (p : string) : bool :=
  match p with
  | String c _ => Ascii.eqb c slash
  | EmptyString => false
  end.

(** [Path(p).name]: the last component once empty and ["."] components
    are dropped; the empty string when none is left. *)
Definition name (p : string) : string :=
  let parts :=
    List.filter (fun c => negb (String.eqb c "" || String.eqb c "."))
                (split p) in
  List.last parts "".

(** [str(d / n)]. *)
Definition join (d n : string) : string :=
  match n with
  | EmptyString => d
  | _ => String.append d (String.append "/" n)
  end.

(** [os.path.basename(p)]: everything after the last slash. *)
Definition basename (p : string) : string := List.last (split p) "".

End PathLib.

(** ** Data model *)

(** A work-queue item or legacy-log entry once parsed ([entry: dict]).
    [ppe_tasks] distinguishes an absent key from a key holding [None]. *)
Record entry := Entry {
  e_ppe_tasks : option (option (list string));
  e_path : option string;
  e_cam_id : option Z;
  e_track_id : option Z;
  e_ts : option Z
}.

(** The part of [cfg] the worker reads. *)
Record config := Config {
  track_ppe : option (option (list string));
  helmet_conf_thresh : option Q
}.

(** One row of [res.boxes.data.tolist()]: [*xyxy, conf, cls]. *)
Record box := Box {
  b_xyxy : list Q;
  b_conf : Q;
  b_cls : Q
}.

(** The [log] dict written to ["ppe_logs"]. *)
Record ppe_log := PpeLog {
  l_ts : Z;
  l_cam_id : option Z;
  l_track_id : option Z;
  l_status : string;
  l_conf : Q;
  l_path : string
}.

(** An image as returned by [cv2.imread]: opaque to the worker. *)
Inductive image := Image (pixels : list Z).

Inductive exn :=
| ConnectionError
| JSONDecodeError
| KeyError
| CallbackError
| WebSocketDisconnect.

Inductive result (A : Type) :=
| Ok (a : A)
| Raise (e : exn)
| OutOfFuel.
Arguments Ok {A} a.
Arguments Raise {A} e.
Arguments OutOfFuel {A}.

(** ** The Redis keys the program uses *)

Module Redis.

(** A sorted set: (member, score) pairs kept in ascending order of score,
    members of equal score in lexicographic order. *)
Definition zset := list (string * Z).

Record t := Mk {
  ppe_queue : list string;
  person_logs : zset;
  ppe_logs : zset;
  counters : gmap string Z
}.

Definition zle (a b : string * Z) : bool :=
  (snd a <? snd b) || ((snd a =? snd b) && String.leb (fst a) (fst b)).

Fixpoint zinsert (x : string * Z) (l : zset) : zset :=
  match l with
  | [] => [x]
  | y :: rest => if zle x y then x :: l else y :: zinsert x rest
  end.

(** ZADD key score member: a member already present is moved. *)
Definition zadd_set (member : string) (score : Z) (l : zset) : zset :=
  zinsert (member, score)
          (List.filter (fun y => negb (String.eqb (fst y) member)) l).

(** ZRANGEBYSCORE key lo +inf. *)
Definition zrangebyscore_from (lo : Z) (l : zset) : list string :=
  List.map fst (List.filter (fun y => lo <=? snd y) l).

(** ZREVRANGE key 0 stop. *)
Definition zrevrange_to (stop : nat) (l : zset) : list string :=
  List.firstn (S stop) (List.map fst (List.rev l)).

(** LPOP ppe_queue. *)
Definition lpop (r : t) : option string * t :=
  match ppe_queue r with
  | [] => (None, r)
  | x :: rest =>
      (Some x, Mk rest (person_logs r) (ppe_logs r) (counters r))
  end.

(** ZADD ppe_logs. *)
Definition zadd (member : string) (score : Z) (r : t) : t :=
  Mk (ppe_queue r) (person_logs r) (zadd_set member score (ppe_logs r))
     (counters r).

(** INCR key: a missing counter counts as 0. *)
Definition counter (key : string) (r : t) : Z :=
  default 0 (counters r !! key).

Definition incr (key : string) (r : t) : t :=
  Mk (ppe_queue r) (person_logs r) (ppe_logs r)
     (<[key := counter key r + 1]> (counters r)).

End Redis.

(** ** The worker: [modules/ppe_worker.py] *)

(** What the worker does to the outside, in program order. *)
Inductive event :=
| EvLpop (popped : option string)
| EvZrangebyscore (lo : Z)
| EvPredict (img : image)
| EvZadd (log : ppe_log) (score : Z)
| EvIncr (key : string)
| EvCallback
| EvSetLastTs (v : Z)
| EvSleep.

(** Collaborators of the worker that are not defined in the repository. *)
Record Env := MkEnv {
  json_loads : string -> option entry;
  json_dumps : ppe_log -> string;
  imread : string -> option image;
  predict : image -> list box;
  names : Z -> option string;
  (** [int(time.time())] at a given step *)
  time_time : nat -> Z;
  (** whether the Redis call made at a given step succeeds *)
  redis_up : nat -> bool
}.

(** The attributes of a [PPEDetector] that never change after
    [__init__]. [update_callback], when given, is known to the worker only
    by being called: the function tells whether the call made at a given
    step returns normally. *)
Record PPEDetector := MkDetector {
  cfg : config;
  snap_dir : string;
  update_callback : option (nat -> bool)
}.

(** The mutable part: the Redis server, the number of steps taken so far
    and the watermark [self.last_ts]. *)
Record state := MkState {
  redis : Redis.t;
  tick : nat;
  last_ts : Z
}.

Definition M (A : Type) : Type := state -> result A * state * list event.

Definition ret {A} (a : A) : M A := fun s => (Ok a, s, []).

Definition bind {A B} (m : M A) (f : A -> M B) : M B :=
  fun s =>
    match m s with
    | (Ok a, s1, t1) =>
        let '(r, s2, t2) := f a s1 in (r, s2, t1 ++ t2)
    | (Raise e, s1, t1) => (Raise e, s1, t1)
    | (OutOfFuel, s1, t1) => (OutOfFuel, s1, t1)
    end.

Notation "'do' x <- m ; k" := (bind m (fun x => k))
  (at level 10, x name, m at level 100, k at level 200).
Notation "'perform' m ; k" := (bind m (fun _ => k))
  (at level 10, m at level 100, k at level 200).

Definition lift {A} (r : result A) : M A := fun s => (r, s, []).

Definition step (s : state) : state :=
  MkState (redis s) (S (tick s)) (last_ts s).

(** [for x in l: f(x)]. *)
Fixpoint for_each {A} (f : A -> M unit) (l : list A) : M unit :=
  match l with
  | [] => ret tt
  | x :: rest => perform f x; for_each f rest
  end.

(** The scores loop of [_process_entry], lines 51-55. *)
Definition scores_get (scores : gmap string Q) (label : string) : Q :=
  default 0%Q (scores !! label).

Definition update_scores (scores : gmap string Q) (label : string) (conf : Q)
  : gmap string Q :=
  if Py.gt conf (scores_get scores label)
  then <[label := conf]> scores
  else scores.

Fixpoint build_scores (names : Z -> option string) (rows : list box)
    (scores : gmap string Q) : result (gmap string Q) :=
  match rows with
  | [] => Ok scores
  | b :: rest =>
      match names (Py.int (b_cls b)) with
      | None => Raise KeyError
      | Some label =>
          build_scores names rest (update_scores scores label (b_conf b))
      end
  end.

Section Worker.

Variable env : Env.
Variable self : PPEDetector.

(** A Redis call: it raises when the server is unreachable at this
    step, and otherwise applies [op] and is recorded as [ev]. *)
Definition redis_call {A} (op : Redis.t -> A * Redis.t) (ev : A -> event)
  : M A :=
  fun s =>
    if redis_up env (tick s)
    then let '(a, r) := op (redis s) in
         (Ok a, MkState r (S (tick s)) (last_ts s), [ev a])
    else (Raise ConnectionError, step s, []).

(** [int(time.time())]. *)
Definition now : M Z := fun s => (Ok (time_time env (tick s)), step s, []).

(** [self.model.predict(img, ...)[0].boxes.data.tolist()]. *)
Definition model_predict (img : image) : M (list box) :=
  fun s => (Ok (predict env img), step s, [EvPredict img]).

(** [if self.update_callback: self.update_callback()]. *)
Definition notify : M unit :=
  match update_callback self with
  | None => ret tt
  | Some returns =>
      fun s =>
        if returns (tick s)
        then (Ok tt, step s, [EvCallback])
        else (Raise CallbackError, step s, [EvCallback])
  end.

(** [self.last_ts = v]. *)
Definition set_last_ts (v : Z) : M unit :=
  fun s => (Ok tt, MkState (redis s) (tick s) v, [EvSetLastTs v]).

Definition get_last_ts : M Z := fun s => (Ok (last_ts s), s, []).

(** [time.sleep(1)]. *)
Definition sleep : M unit := fun s => (Ok tt, step s, [EvSleep]).

(** [self.cfg.get("helmet_conf_thresh", 0.5)]. *)
Definition threshold : Q := default (1 # 2)%Q (helmet_conf_thresh (cfg self)).

(** Line 58. *)
Definition status_of (item : string) (conf : Q) : string :=
  if Py.ge conf threshold then item else String.append "no_" item.

(** The body of the loop over [tasks], lines 57-72. *)
Definition process_task (e : entry) (img_name : string)
    (scores : gmap string Q) (item : string) : M unit :=
  let conf := scores_get scores item in
  let status := status_of item conf in
  do ts <- now;
  let log := PpeLog ts (e_cam_id e) (e_track_id e) status conf img_name in
  perform redis_call (fun r => (tt, Redis.zadd (json_dumps env log) ts r))
                     (fun _ => EvZadd log ts);
  perform (if Py.startswith "no_" status
           then redis_call
                  (fun r => (tt, Redis.incr (String.append status "_count") r))
                  (fun _ => EvIncr (String.append status "_count"))
           else ret tt);
  notify.

(** [entry.get("ppe_tasks", self.cfg.get("track_ppe", []))]. *)
Definition resolve_tasks (e : entry) : option (list string) :=
  Py.get_default (e_ppe_tasks e)
                 (Py.get_default (track_ppe (cfg self)) (Some [])).

(** Lines 44-46. *)
Definition resolve_path (path : string) : string :=
  if PathLib.is_absolute path
  then path
  else PathLib.join (snap_dir self) (PathLib.name path).

Definition _process_entry (e : entry) : M unit :=
  let tasks := resolve_tasks e in
  if negb (Py.truthy_list tasks) then ret tt else
  let path := e_path e in
  if negb (Py.truthy_str path) then ret tt else
  let img_path := resolve_path (default "" path) in
  match imread env img_path with
  | None => ret tt
  | Some img =>
      do rows <- model_predict img;
      do scores <- lift (build_scores (names env) rows ∅);
      for_each (process_task e (PathLib.name img_path) scores)
               (default [] tasks)
  end.

(** The inner [while True] of [run], lines 77-85. [fuel] bounds the
    number of iterations. *)
Fixpoint drain_queue (fuel : nat) : M unit :=
  match fuel with
  | O => lift OutOfFuel
  | S fuel' =>
      do queued <- redis_call Redis.lpop EvLpop;
      match queued with
      | None | Some EmptyString => ret tt
      | Some payload =>
          match json_loads env payload with
          | None => drain_queue fuel'
          | Some e => perform _process_entry e; drain_queue fuel'
          end
      end
  end.

(** The list comprehension of lines 88-91. *)
Fixpoint loads_all (members : list string) : result (list entry) :=
  match members with
  | [] => Ok []
  | m :: rest =>
      match json_loads env m with
      | None => Raise JSONDecodeError
      | Some e =>
          match loads_all rest with
          | Ok es => Ok (e :: es)
          | Raise x => Raise x
          | OutOfFuel => OutOfFuel
          end
      end
  end.

(** The body of the loop over [entries], lines 93-94. *)
Definition scan_entry (e : entry) : M unit :=
  do w <- get_last_ts;
  perform set_last_ts (Z.max w (default 0 (e_ts e)));
  _process_entry e.

(** Lines 88-94. *)
Definition scan_person_logs : M unit :=
  do w <- get_last_ts;
  do members <- redis_call
                  (fun r => (Redis.zrangebyscore_from (w + 1)
                               (Redis.person_logs r), r))
                  (fun _ => EvZrangebyscore (w + 1));
  do entries <- lift (loads_all members);
  for_each scan_entry entries.

(** One iteration of [while self.running]. *)
Definition cycle (fuel : nat) : M unit :=
  perform drain_queue fuel;
  perform scan_person_logs;
  sleep.

(** [run], for as many iterations as [self.running] stays true. *)
Fixpoint run (cycles fuel : nat) : M unit :=
  match cycles with
  | O => ret tt
  | S n => perform cycle fuel; run n fuel
  end.

End Worker.

(** Projections of an outcome. *)
Definition outcome {A} (x : result A * state * list event) : result A :=
  fst (fst x).
Definition final {A} (x : result A * state * list event) : state :=
  snd (fst x).
Definition trace {A} (x : result A * state * list event) : list event :=
  snd x.
Arguments outcome {A} x /.
Arguments final {A} x /.
Arguments trace {A} x /.

(** [__init__], lines 20-25: the device the model is loaded on, and
    whether the fallback warning is logged. [configured] is what
    [cfg.get("device", "cpu")] finds: [None] when the key is absent,
    [Some None] when it holds [None]. *)
Definition select_device (configured : option (option string))
    (cuda_available : bool) : string * bool :=
  let device := Py.get_default configured (Some "cpu") in
  let device :=
    if negb (Py.truthy_str device) || String.eqb (default "" device) "auto"
    then (if cuda_available then "cuda:0" else "cpu")
    else default "" device in
  if Py.startswith "cuda" device && negb cuda_available
  then ("cpu", true)
  else (device, false).

(** Lines 27-30: the model runs in half precision on a CUDA device. *)
Definition uses_half (device : string) : bool := Py.startswith "cuda" device.

(** Lines 31-33: a new worker starts with [last_ts = 0]. *)
Definition init_state (r : Redis.t) : state := MkState r 0 0.

(** ** The dashboard routes: [routers/dashboard.py] *)

Module Dashboard.

(** The [fields] dict of a stream message, as far as the relay reads it:
    [fields.get(b'data')] and [fields.get('data')]. *)
Record fields := Fields {
  f_bdata : option Py.text;
  f_sdata : option Py.text
}.

Definition message : Type := Py.text * fields.

(** An entry of ["ppe_logs"] once parsed, as far as [latest_images]
    reads it: [e.get('status')] and [e.get('path')]. *)
Record log_entry := LogEntry {
  le_status : option string;
  le_path : option string
}.

(** What a subscriber is sent. *)
Inductive frame :=
| Snapshot (stats : string)
| Text (data : string).

Record Env := MkEnv {
  (** [redis.xread({'people_counter': last_id}, block=10000, count=1)]
      for the read number [k] of a connection *)
  xread : string -> nat -> list (string * list message);
  (** [gather_stats(trackers_map, redis)] on the live state *)
  gather_stats : Redis.t -> string;
  (** [json.loads] on a member of ["ppe_logs"] *)
  loads_log : string -> option log_entry;
  (** whether the websocket send number [n] of a connection succeeds *)
  ws_up : nat -> bool
}.

Section Routes.

Variable env : Env.

(** [fields.get(b'data') or fields.get('data')]. *)
Definition data_of (f : fields) : option Py.text :=
  Py.or_text (f_bdata f) (f_sdata f).

(** The [for sid, fields in messages] loop of [ws_stats]. The result
    tells whether the socket is still connected, the new [last_id] and
    the number of sends made so far. *)
Fixpoint ws_forward (messages : list message) (last_id : string)
    (n : nat) : bool * string * nat * list frame :=
  match messages with
  | [] => (true, last_id, n, [])
  | (sid, f) :: rest =>
      let last_id := Py.decode_if_bytes sid in
      match data_of f with
      | Some d =>
          if Py.truthy_text (Some d)
          then if ws_up env n
               then let '(c, l, m, out) := ws_forward rest last_id (S n) in
                    (c, l, m, Text (Py.decode_if_bytes d) :: out)
               else (false, last_id, n, [])
          else ws_forward rest last_id n
      | None => ws_forward rest last_id n
      end
  end.

(** The [while True] loop of [ws_stats]; [k] counts the reads. *)
Fixpoint ws_tail (fuel : nat) (last_id : string) (k n : nat)
  : result unit * list frame :=
  match fuel with
  | O => (OutOfFuel, [])
  | S fuel' =>
      match xread env last_id k with
      | [] => ws_tail fuel' last_id (S k) n
      | (_, messages) :: _ =>
          let '(connected, l, m, out) := ws_forward messages last_id n in
          if connected
          then let '(r, out') := ws_tail fuel' l (S k) m in
               (r, out ++ out')
          else (Ok tt, out)
      end
  end.

Definition ws_stats (fuel : nat) (live : Redis.t)
  : result unit * list frame :=
  if ws_up env 0
  then let '(r, out) := ws_tail fuel "$" 0 1 in
       (r, Snapshot (gather_stats env live) :: out)
  else (Raise WebSocketDisconnect, []).

(** The [for sid, fields in messages] loop of [event_gen]. *)
Fixpoint sse_forward (messages : list message) (last_id : string)
  : string * list frame :=
  match messages with
  | [] => (last_id, [])
  | (sid, f) :: rest =>
      let last_id := Py.decode_if_bytes sid in
      let '(l, out) := sse_forward rest last_id in
      match data_of f with
      | Some d =>
          if Py.truthy_text (Some d)
          then (l, Text (String.append "data: "
                          (String.append (Py.decode_if_bytes d)
                             (String "010" (String "010" ""))))
                   :: out)
          else (l, out)
      | None => (l, out)
      end
  end.

(** [event_gen]: what the generator yields in [fuel] iterations of its
    loop. *)
Fixpoint event_gen (fuel : nat) (last_id : string) (k : nat)
  : list frame :=
  match fuel with
  | O => []
  | S fuel' =>
      match xread env last_id k with
      | [] => event_gen fuel' last_id (S k)
      | (_, messages) :: _ =>
          let '(l, out) := sse_forward messages last_id in
          out ++ event_gen fuel' l (S k)
      end
  end.

Definition sse_stats (fuel : nat) : list frame :=
  event_gen fuel "$" 0.

(** [e.get('status') == status and e.get('path')]. *)
Definition wanted (status : string) (e : log_entry) : bool :=
  match le_status e with
  | Some s => String.eqb s status && Py.truthy_str (le_path e)
  | None => false
  end.

(** The loop of [latest_images] over [entries]. *)
Fixpoint collect (status : string) (count : Z) (entries : list string)
    (imgs : list string) : result (list string) :=
  match entries with
  | [] => Ok imgs
  | item :: rest =>
      match loads_log env item with
      | None => Raise JSONDecodeError
      | Some e =>
          if wanted status e
          then let fname := PathLib.basename (default "" (le_path e)) in
               let imgs := imgs ++ [String.append "/snapshots/" fname] in
               if Z.of_nat (length imgs) >=? count
               then Ok imgs
               else collect status count rest imgs
          else collect status count rest imgs
      end
  end.

Definition latest_images (status : string) (count : Z) (r : Redis.t)
  : result (list string) :=
  collect status count (Redis.zrevrange_to 1000 (Redis.ppe_logs r)) [].

End Routes.

(** The dict comprehension of [index], line 48:
    [{item: int(redis.get(f'{item}_count') or 0) for item in ANOMALY_ITEMS}].
    [ANOMALY_ITEMS] is imported from [core.config]; it is a parameter. *)
Definition anomaly_counts (anomaly_items : list string) (r : Redis.t)
  : gmap string Z :=
  List.fold_left
    (fun d item => <[item := Redis.counter (String.append item "_count") r]> d)
    anomaly_items ∅.

End Dashboard.

(** ** Specification-level definitions *)

(** Confidences of the raw detection boxes carrying [label], in the order
    the capability produced them. *)
Definition label_confs (names : Z -> option string) (rows : list box)
    (label : string) : list Q :=
  List.map b_conf
    (List.filter
       (fun b => match names (Py.int (b_cls b)) with
                 | Some l => String.eqb l label
                 | None => false
                 end)
       rows).

(** "The maximum of its current value (default 0) and the box's
    confidence", box after box. *)
Definition max_conf (cs : list Q) : Q := List.fold_left Qmax cs 0%Q.

(** The ResultRecords written, in the order of the trace. *)
Definition zadd_logs (t : list event) : list ppe_log :=
  List.flat_map (fun ev => match ev with
                           | EvZadd log _ => [log]
                           | _ => []
                           end) t.

(** A frame that forwards stream data. *)
Definition is_text (f : Dashboard.frame) : Prop :=
  exists data, f = Dashboard.Text data.

(** A member of ["ppe_logs"] that parses and is not selected by
    [latest_images] for [status]. *)
Definition unwanted (env : Dashboard.Env) (status : string) (member : string)
  : bool :=
  match Dashboard.loads_log env member with
  | Some e => negb (Dashboard.wanted status e)
  | None => false
  end.

(** A computation that leaves the work queue as it found it and ends
    without a loop of its own running out of fuel. *)
Definition keeps_queue {A} (m : M A) : Prop :=
  forall s,
    Redis.ppe_queue (redis (final (m s))) = Redis.ppe_queue (redis s) /\
    outcome (m s) <> OutOfFuel.

(** The record of one task, as lines 57-67 build it at time [ts]. *)
Definition record_of (self : PPEDetector) (e : entry) (img_name : string)
    (scores : gmap string Q) (item : string) (ts : Z) : ppe_log :=
  PpeLog ts (e_cam_id e) (e_track_id e)
         (status_of self item (scores_get scores item))
         (scores_get scores item) img_name.

(** "The remaining tasks of the event are still evaluated and persisted":
    the trace holds a record for each of them. *)
Definition remaining_tasks_persisted (t : list event) (post : list string)
  : Prop :=
  forall item, In item post ->
    exists log, In log (zadd_logs t) /\
                (l_status log = item \/ l_status log = String.append "no_" item).

(** The watermark after the assignments of a trace, starting from [w]. *)
Fixpoint replay_last_ts (w : Z) (t : list event) : Z :=
  match t with
  | [] => w
  | EvSetLastTs v :: rest => replay_last_ts v rest
  | _ :: rest => replay_last_ts w rest
  end.

(** No assignment of the trace lowers the watermark, starting from [w]. *)
Fixpoint never_lowered (w : Z) (t : list event) : Prop :=
  match t with
  | [] => True
  | EvSetLastTs v :: rest => w <= v /\ never_lowered v rest
  | _ :: rest => never_lowered w rest
  end.

(** "All ResultRecords are written before the watermark advances": no
    record is written after an assignment of the watermark. *)
Definition records_precede_watermark (t : list event) : Prop :=
  forall pre v post, t = pre ++ EvSetLastTs v :: post -> zadd_logs post = [].

(** A string without a slash: a bare file name. *)
Fixpoint no_slash (s : string) : bool :=
  match s with
  | EmptyString => true
  | String c rest => negb (Ascii.eqb c PathLib.slash) && no_slash rest
  end.

Definition is_predict (ev : event) : bool :=
  match ev with EvPredict _ => true | _ => false end.

Definition is_callback (ev : event) : bool :=
  match ev with EvCallback => true | _ => false end.

Definition is_zadd (ev : event) : bool :=
  match ev with EvZadd _ _ => true | _ => false end.

Definition count_events (p : event -> bool) (t : list event) : nat :=
  length (List.filter p t).

(** What one completed iteration of the loop over [tasks] does. *)
Definition task_events (self : PPEDetector) (log : ppe_log) : list event :=
  EvZadd log (l_ts log)
  :: (if Py.startswith "no_" (l_status log)
      then [EvIncr (String.append (l_status log) "_count")]
      else [])
  ++ (match update_callback self with
      | Some _ => [EvCallback]
      | None => []
      end).

(** Every event of every run of a computation satisfies [P]. *)
Definition trace_sat {A} (P : event -> Prop) (m : M A) : Prop :=
  forall s, List.Forall P (trace (m s)).

(** A record is stored under its own timestamp, carries a bare file name
    and a status that is a task name or its ["no_"] form; a counter key is
    the ["no_"] status of a record followed by ["_count"]. *)
Definition well_formed_event (ev : event) : Prop :=
  match ev with
  | EvZadd log score => score = l_ts log /\ no_slash (l_path log) = true
  | EvIncr key =>
      exists status, Py.startswith "no_" status = true /\
                     key = String.append status "_count"
  | _ => True
  end.

(** A computation under which no counter decreases. *)
Definition counters_grow {A} (m : M A) : Prop :=
  forall s key,
    Redis.counter key (redis s) <= Redis.counter key (redis (final (m s))).

(** A computation that never writes to ["person_logs"]. *)
Definition keeps_person_logs {A} (m : M A) : Prop :=
  forall s,
    Redis.person_logs (redis (final (m s))) = Redis.person_logs (redis s).

(** What a queue holds after its items are popped up to and including the
    first empty payload. *)
Fixpoint after_first_empty (queue : list string) : list string :=
  match queue with
  | [] => []
  | EmptyString :: rest => rest
  | _ :: rest => after_first_empty rest
  end.

(** The members a scan from watermark [w] reads. *)
Definition scan_range (w : Z) (r : Redis.t) : list string :=
  Redis.zrangebyscore_from (w + 1) (Redis.person_logs r).

(** The watermark after scanning [entries] from [w]. *)
Definition watermark_after (w : Z) (entries : list entry) : Z :=
  List.fold_left Z.max (List.map (fun e => default 0 (e_ts e)) entries) w.

(** The SSE framing of a websocket text frame. *)
Definition sse_wrap (f : Dashboard.frame) : Dashboard.frame :=
  match f with
  | Dashboard.Text d =>
      Dashboard.Text
        (String.append "data: "
           (String.append d (String "010" (String "010" ""))))
  | Dashboard.Snapshot stats => Dashboard.Snapshot stats
  end.

(** The stream id of the last message of a batch, or the cursor itself
    for an empty batch. *)
Definition cursor_after (messages : list Dashboard.message) (last_id : string)
  : string :=
  List.last (List.map (fun m => Py.decode_if_bytes (fst m)) messages) last_id.

(** The URL [latest_images] returns for a selected entry. *)
Definition image_of (e : Dashboard.log_entry) : string :=
  String.append "/snapshots/"
    (PathLib.basename (default "" (Dashboard.le_path e))).

(** The members of a list that parse, parsed. *)
Definition parsed (env : Dashboard.Env) (members : list string)
  : list Dashboard.log_entry :=
  omap (Dashboard.loads_log env) members.

Definition parses (env : Dashboard.Env) (member : string) : bool :=
  match Dashboard.loads_log env member with
  | Some _ => true
  | None => false
  end.

(** The images of the selected entries among [members], in order. *)
Definition selected_images (env : Dashboard.Env) (status : string)
    (members : list string) : list string :=
  List.map image_of (List.filter (Dashboard.wanted status) (parsed env members)).

(** The number of images [latest_images] stops at: [count], and 1 when
    [count] is not positive. *)
Definition image_limit (count : Z) : nat := Z.to_nat (Z.max count 1).

(** A URL under [/snapshots/] naming a bare file. *)
Definition snapshot_url (img : string) : Prop :=
  exists fname, img = String.append "/snapshots/" fname /\
                no_slash fname = true.

(** ** Sample inputs *)

Module Sample.

Definition quote : string := String (ascii_of_nat 34) "".
Definition jstr (s : string) : string :=
  String.append quote (String.append s quote).

(** The JSON text of [helmet_vest] below: an object with the keys
    [ppe_tasks], [path], [cam_id], [track_id] and [ts]. *)
Definition payload : string :=
  String.concat ""
    [ "{"; jstr "ppe_tasks"; ": ["; jstr "helmet"; ", "; jstr "vest"; "], ";
      jstr "path"; ": "; jstr "a.jpg"; ", ";
      jstr "cam_id"; ": 1, "; jstr "track_id"; ": 7, "; jstr "ts"; ": 5}" ].

Definition helmet_vest : entry :=
  Entry (Some (Some ["helmet"; "vest"])) (Some "a.jpg") (Some 1) (Some 7)
        (Some 5).

Definition no_tasks : entry :=
  Entry (Some (Some [])) (Some "a.jpg") (Some 1) (Some 7) (Some 5).

Definition loads (s : string) : option entry :=
  if String.eqb s payload then Some helmet_vest else None.

Definition dumps (log : ppe_log) : string :=
  String.append (l_status log) (String.append "@" (l_path log)).

Definition names (cls : Z) : option string :=
  if cls =? 0 then Some "helmet"
  else if cls =? 1 then Some "vest"
  else if cls =? 2 then Some "no_mask"
  else None.

(** helmet 0.8, vest 0.3, a weaker second helmet, no_mask 0.9 *)
Definition rows : list box :=
  [ Box [0; 0; 10; 10]%Q (4 # 5) 0;
    Box [5; 5; 20; 20]%Q (3 # 10) 1;
    Box [1; 1; 9; 9]%Q (1 # 2) 0;
    Box [2; 2; 4; 4]%Q (9 # 10) 2 ].

Definition imread (path : string) : option image :=
  if String.eqb path "/snap/a.jpg" then Some (Image [1; 2; 3]) else None.

Definition clock (n : nat) : Z := 1700000000 + Z.of_nat n.

Definition env : Env :=
  MkEnv loads dumps imread (fun _ => rows) names clock (fun _ => true).

(** The same collaborators with Redis unreachable at step 2 only, the
    step of the first ZADD of an event processed from [start]. *)
Definition env_blip : Env :=
  MkEnv loads dumps imread (fun _ => rows) names clock
        (fun n => negb (Nat.eqb n 2)).

Definition detector : PPEDetector :=
  MkDetector (Config None None) "/snap" None.

Definition empty_redis : Redis.t := Redis.Mk [] [] [] ∅.

Definition start : state := MkState empty_redis 0 0.

(** An empty payload ahead of a well-formed one. *)
Definition queue_with_empty : state :=
  MkState (Redis.Mk [""; payload] [] [] ∅) 0 0.

Definition scores : gmap string Q :=
  <["helmet" := (4 # 5)%Q]> (<["vest" := (3 # 10)%Q]> ∅).

(** A stream message carrying ["m1"] under the key [b'data']. *)
Definition msg1 : Dashboard.message :=
  (Py.Bytes "1-0", Dashboard.Fields (Some (Py.Bytes "m1")) None).

Definition dash_env : Dashboard.Env :=
  Dashboard.MkEnv
    (fun _ k => match k with
                | O => [("people_counter", [msg1])]
                | _ => []
                end)
    (fun _ => "{}")
    (fun s => if String.eqb s "old"
              then Some (Dashboard.LogEntry (Some "no_helmet") (Some "o.jpg"))
              else Some (Dashboard.LogEntry (Some "helmet") (Some "n.jpg")))
    (fun _ => true).

(** 1001 recent compliant entries, of distinct members and ascending
    scores, above one older violation. *)
Definition recent : Redis.zset :=
  List.map (fun n => (String.append "n" (NilEmpty.string_of_uint (Nat.to_uint n)),
                      2 + Z.of_nat n))
           (List.seq 0 1001).

Definition deep_log : Redis.t := Redis.Mk [] [] (("old", 1) :: recent) ∅.

Definition recent_log : Redis.t := Redis.Mk [] [] recent ∅.

(** A payload that does not parse ahead of a well-formed one. *)
Definition queue_with_malformed : state :=
  MkState (Redis.Mk ["{oops"; payload] [] [] ∅) 0 0.


(** A detector with an update callback that always returns. *)
Definition detector_cb : PPEDetector :=
  MkDetector (Config None None) "/snap" (Some (fun _ => true)).

(** An entry without a path, and one whose image does not exist. *)
Definition no_path : entry :=
  Entry (Some (Some ["helmet"])) None (Some 1) (Some 7) (Some 5).

Definition missing_image : entry :=
  Entry (Some (Some ["helmet"])) (Some "gone.jpg") (Some 1) (Some 7) (Some 5).


(** A legacy log of two well-formed entries around a malformed one. *)
Definition legacy_with_malformed : state :=
  MkState (Redis.Mk [] [(payload, 5); ("{oops", 6); (payload, 7)] [] ∅) 0 0.

(** A legacy log holding [helmet_vest] under its own timestamp. *)
Definition legacy_one : state :=
  MkState (Redis.Mk [] [(payload, 5)] [] ∅) 0 0.

(** The text of an entry like [helmet_vest] but without ["ts"]. *)
Definition payload_no_ts : string :=
  String.concat ""
    [ "{"; jstr "ppe_tasks"; ": ["; jstr "helmet"; "], ";
      jstr "path"; ": "; jstr "a.jpg"; "}" ].

Definition helmet_no_ts : entry :=
  Entry (Some (Some ["helmet"])) (Some "a.jpg") None None None.

Definition loads2 (s : string) : option entry :=
  if String.eqb s payload_no_ts then Some helmet_no_ts else loads s.

Definition env2 : Env :=
  MkEnv loads2 dumps imread (fun _ => rows) names clock (fun _ => true).

Definition legacy_no_ts : state :=
  MkState (Redis.Mk [] [(payload_no_ts, 5)] [] ∅) 0 0.


(** A dashboard environment in which the member ["bad"] does not parse. *)
Definition dash_env_strict : Dashboard.Env :=
  Dashboard.MkEnv
    (Dashboard.xread dash_env) (Dashboard.gather_stats dash_env)
    (fun s => if String.eqb s "bad" then None
              else Dashboard.loads_log dash_env s)
    (Dashboard.ws_up dash_env).

(** A malformed member between a recent compliant entry and an older
    violation. *)
Definition log_with_bad : Redis.t :=
  Redis.Mk [] [] [("old", 1); ("bad", 2); ("n0", 3)] ∅.

(** A record of a violation and its JSON text as [dash_text] renders it. *)
Definition violation : ppe_log :=
  PpeLog 1700000009 (Some 1) (Some 7) "no_vest" (3 # 10) "a.jpg".

Definition dash_env_dumps : Dashboard.Env :=
  Dashboard.MkEnv
    (Dashboard.xread dash_env) (Dashboard.gather_stats dash_env)
    (fun s => if String.eqb s (dumps violation)
              then Some (Dashboard.LogEntry (Some "no_vest") (Some "a.jpg"))
              else Dashboard.loads_log dash_env s)
    (Dashboard.ws_up dash_env).

End Sample.

(** * Properties *)

(** ** Inference Adapter *)

Section Scores.

Variable names : Z -> option string.

Lemma gt_is_max (conf cur : Q) :
  (if Py.gt conf cur then conf else cur) = Qmax cur conf.
Proof.
  unfold Py.gt, Qmax, GenericMinMax.gmax.
  destruct (Qle_bool conf cur) eqn:Hle; simpl.
  - apply Qle_bool_iff in Hle.
    destruct (Qcompare cur conf) eqn:Hc; try reflexivity.
    apply Qlt_alt in Hc. exfalso. eapply Qlt_not_le; eauto.
  - destruct (Qcompare cur conf) eqn:Hc; try reflexivity.
    + apply Qeq_alt in Hc. assert (conf <= cur)%Q as H.
      { rewrite Hc. apply Qle_refl. }
      apply Qle_bool_iff in H. congruence.
    + apply Qgt_alt in Hc. apply Qlt_le_weak in Hc.
      apply Qle_bool_iff in Hc. congruence.
Qed.

Lemma scores_get_update (scores : gmap string Q) (label l : string) (c : Q) :
  scores_get (update_scores scores label c) l =
  if String.eqb label l then Qmax (scores_get scores l) c
  else scores_get scores l.
Proof.
  unfold update_scores.
  destruct (String.eqb label l) eqn:E.
  - apply String.eqb_eq in E. subst l.
    rewrite <- gt_is_max.
    destruct (Py.gt c (scores_get scores label)); [|reflexivity].
    unfold scores_get. now rewrite lookup_insert_eq.
  - apply String.eqb_neq in E.
    destruct (Py.gt c (scores_get scores label)); [|reflexivity].
    unfold scores_get. now rewrite lookup_insert_ne.
Qed.

Lemma build_scores_get (rows : list box) :
  forall (s0 s : gmap string Q) (l : string),
    build_scores names rows s0 = Ok s ->
    scores_get s l =
    List.fold_left Qmax (label_confs names rows l) (scores_get s0 l).
Proof.
  induction rows as [|b rows IH]; intros s0 s l H; simpl in H.
  - now inversion H.
  - unfold label_confs. simpl.
    destruct (names (Py.int (b_cls b))) as [label|]; [|discriminate].
    rewrite (IH _ _ l H), scores_get_update.
    destruct (String.eqb label l); reflexivity.
Qed.

Lemma update_scores_lookup (scores : gmap string Q) (label l : string)
    (c v : Q) :
  update_scores scores label c !! l = Some v ->
  scores !! l = Some v \/ (label = l /\ v = c).
Proof.
  unfold update_scores.
  destruct (Py.gt c (scores_get scores label)); [|auto].
  destruct (decide (label = l)) as [->|Hne].
  - rewrite lookup_insert_eq. intros [= <-]. auto.
  - rewrite lookup_insert_ne by assumption. auto.
Qed.

Lemma build_scores_lookup (rows : list box) :
  forall (s0 s : gmap string Q) (l : string) (v : Q),
    build_scores names rows s0 = Ok s ->
    s !! l = Some v ->
    s0 !! l = Some v \/ In v (label_confs names rows l).
Proof.
  induction rows as [|b rows IH]; intros s0 s l v H Hl; simpl in H.
  - inversion H; subst; auto.
  - unfold label_confs. simpl.
    destruct (names (Py.int (b_cls b))) as [label|] eqn:En; [|discriminate].
    destruct (IH _ _ _ _ H Hl) as [Hu|Hin].
    + apply update_scores_lookup in Hu as [Hu|[-> ->]]; [auto|].
      right. rewrite String.eqb_refl. simpl. auto.
    + right. destruct (String.eqb label l); simpl; auto.
Qed.

Lemma fold_max_ge_init (cs : list Q) :
  forall init : Q, (init <= List.fold_left Qmax cs init)%Q.
Proof.
  induction cs as [|c cs IH]; intros init; simpl.
  - apply Qle_refl.
  - eapply Qle_trans; [apply Q.le_max_l | apply IH].
Qed.

Lemma fold_max_upper (cs : list Q) :
  forall (init c : Q), In c cs -> (c <= List.fold_left Qmax cs init)%Q.
Proof.
  induction cs as [|c' cs IH]; intros init c Hin; simpl in *.
  - contradiction.
  - destruct Hin as [->|Hin].
    + eapply Qle_trans; [apply Q.le_max_r | apply fold_max_ge_init].
    + now apply IH.
Qed.

End Scores.

(** C8. The ConfidenceMap built by the scores loop gives, for every label,
    the maximum (with default 0) of the confidences of the raw boxes
    carrying that label; a stored value is the confidence of one of those
    boxes and bounds them all; a label is left out only when none of its
    boxes has a positive confidence, so labels without a box are absent;
    no other filtering takes place. *)
Theorem confidence_map_is_label_max
    (names : Z -> option string) (rows : list box) (scores : gmap string Q) :
  build_scores names rows ∅ = Ok scores ->
  (forall label,
      scores_get scores label = max_conf (label_confs names rows label)) /\
  (forall label v,
      scores !! label = Some v ->
      In v (label_confs names rows label) /\
      forall c, In c (label_confs names rows label) -> (c <= v)%Q) /\
  (forall label,
      label_confs names rows label = [] -> scores !! label = None) /\
  (forall label,
      scores !! label = None ->
      forall c, In c (label_confs names rows label) -> (c <= 0)%Q).
Proof.
  intros H.
  assert (Hget : forall label,
             scores_get scores label = max_conf (label_confs names rows label)).
  { intros label. now rewrite (build_scores_get names rows ∅ scores label H). }
  assert (Hin : forall label v,
             scores !! label = Some v -> In v (label_confs names rows label)).
  { intros label v Hl.
    destruct (build_scores_lookup names rows ∅ scores label v H Hl) as [E|E].
    - rewrite lookup_empty in E. discriminate.
    - exact E. }
  repeat split.
  - exact Hget.
  - now apply Hin.
  - intros c Hc.
    assert (v = scores_get scores label) as ->.
    { unfold scores_get. now rewrite H0. }
    rewrite Hget. now apply fold_max_upper.
  - intros label Hnil.
    destruct (scores !! label) as [v|] eqn:E; [|reflexivity].
    apply Hin in E. rewrite Hnil in E. contradiction.
  - intros label Hnone c Hc.
    assert (0%Q = scores_get scores label) as ->.
    { unfold scores_get. now rewrite Hnone. }
    rewrite Hget. now apply fold_max_upper.
Qed.

Lemma confidence_map_is_label_max_witness :
  exists scores,
    build_scores Sample.names Sample.rows ∅ = Ok scores /\
    scores !! "helmet" = Some (4 # 5)%Q /\
    scores_get scores "helmet"
    = max_conf (label_confs Sample.names Sample.rows "helmet").
Proof.
  eexists. split; [reflexivity|]. split; [reflexivity|].
  apply (confidence_map_is_label_max Sample.names Sample.rows).
  reflexivity.
Defined.

(** ** Watermark *)

Lemma replay_last_ts_app (t1 t2 : list event) :
  forall w, replay_last_ts w (t1 ++ t2)
            = replay_last_ts (replay_last_ts w t1) t2.
Proof.
  induction t1 as [|ev t1 IH]; intros w; simpl; [reflexivity|].
  destruct ev; apply IH.
Qed.

Lemma never_lowered_app (t1 t2 : list event) :
  forall w, never_lowered w t1 ->
            never_lowered (replay_last_ts w t1) t2 ->
            never_lowered w (t1 ++ t2).
Proof.
  induction t1 as [|ev t1 IH]; intros w H1 H2; simpl in *; [assumption|].
  destruct ev; try (now apply IH).
  destruct H1 as [Hle H1]. split; [assumption | now apply IH].
Qed.

Lemma never_lowered_le (t : list event) :
  forall w, never_lowered w t -> w <= replay_last_ts w t.
Proof.
  induction t as [|ev t IH]; intros w H; simpl in *; [lia|].
  destruct ev; try (now apply IH).
  destruct H as [Hle H]. specialize (IH _ H). lia.
Qed.

Lemma no_assignment_replay (t : list event) :
  (forall v, ~ In (EvSetLastTs v) t) ->
  forall w, replay_last_ts w t = w /\ never_lowered w t.
Proof.
  induction t as [|ev t IH]; intros Hno w; simpl; [auto|].
  assert (Hno' : forall v, ~ In (EvSetLastTs v) t).
  { intros v Hin. apply (Hno v). now right. }
  destruct ev; try (now apply IH).
  exfalso. apply (Hno v). now left.
Qed.

(** A computation that never assigns [self.last_ts]. *)
Definition leaves_watermark {A} (m : M A) : Prop :=
  forall s, last_ts (final (m s)) = last_ts s /\
            forall v, ~ In (EvSetLastTs v) (trace (m s)).

(** A computation whose assignments never lower [self.last_ts]. *)
Definition keeps_watermark {A} (m : M A) : Prop :=
  forall s, never_lowered (last_ts s) (trace (m s)) /\
            last_ts (final (m s)) = replay_last_ts (last_ts s) (trace (m s)).

Lemma leaves_keeps {A} (m : M A) : leaves_watermark m -> keeps_watermark m.
Proof.
  intros H s. destruct (H s) as [Hl Hno].
  destruct (no_assignment_replay _ Hno (last_ts s)) as [Hr Hn].
  split; [assumption | congruence].
Qed.

Lemma leaves_ret {A} (a : A) : leaves_watermark (ret a).
Proof. intros s. simpl. auto. Qed.

Lemma leaves_lift {A} (r : result A) : leaves_watermark (lift r).
Proof. intros s. simpl. auto. Qed.

Lemma leaves_bind {A B} (m : M A) (f : A -> M B) :
  leaves_watermark m -> (forall a, leaves_watermark (f a)) ->
  leaves_watermark (bind m f).
Proof.
  intros Hm Hf s. unfold bind.
  specialize (Hm s). destruct (m s) as [[r s1] t1]. simpl in Hm.
  destruct Hm as [Hl Hno].
  destruct r as [a| |]; simpl; auto.
  specialize (Hf a s1). destruct (f a s1) as [[r2 s2] t2]. simpl in *.
  destruct Hf as [Hl2 Hno2]. split; [congruence|].
  intros v Hin. apply in_app_or in Hin as [Hin|Hin].
  - now apply (Hno v).
  - now apply (Hno2 v).
Qed.

Lemma keeps_bind {A B} (m : M A) (f : A -> M B) :
  keeps_watermark m -> (forall a, keeps_watermark (f a)) ->
  keeps_watermark (bind m f).
Proof.
  intros Hm Hf s. unfold bind.
  specialize (Hm s). destruct (m s) as [[r s1] t1]. simpl in Hm.
  destruct Hm as [Hn Hl].
  destruct r as [a| |]; simpl; auto.
  specialize (Hf a s1). destruct (f a s1) as [[r2 s2] t2]. simpl in *.
  destruct Hf as [Hn2 Hl2]. rewrite replay_last_ts_app. split.
  - apply never_lowered_app; [assumption | now rewrite <- Hl].
  - now rewrite <- Hl.
Qed.

Lemma leaves_for_each {A} (f : A -> M unit) (l : list A) :
  (forall x, leaves_watermark (f x)) -> leaves_watermark (for_each f l).
Proof.
  intros Hf. induction l as [|x l IH]; simpl.
  - apply leaves_ret.
  - apply leaves_bind; auto.
Qed.

Lemma keeps_for_each {A} (f : A -> M unit) (l : list A) :
  (forall x, keeps_watermark (f x)) -> keeps_watermark (for_each f l).
Proof.
  intros Hf. induction l as [|x l IH]; simpl.
  - apply leaves_keeps, leaves_ret.
  - apply keeps_bind; auto.
Qed.

Section WorkerWatermark.

Variable env : Env.
Variable self : PPEDetector.

Lemma leaves_redis_call {A} (op : Redis.t -> A * Redis.t) (ev : A -> event) :
  (forall a v, ev a <> EvSetLastTs v) ->
  leaves_watermark (redis_call env op ev).
Proof.
  intros Hev s. unfold redis_call.
  destruct (redis_up env (tick s)); [|simpl; auto].
  destruct (op (redis s)) as [a r]. simpl. split; [reflexivity|].
  intros v [H|[]]. now apply (Hev a v).
Qed.

Lemma leaves_now : leaves_watermark (now env).
Proof. intros s. simpl. auto. Qed.

Lemma leaves_model_predict (img : image) :
  leaves_watermark (model_predict env img).
Proof. intros s. simpl. split; [reflexivity|]. intros v [H|[]]. discriminate. Qed.

Lemma leaves_notify : leaves_watermark (notify self).
Proof.
  unfold notify. destruct (update_callback self) as [returns|].
  - intros s. destruct (returns (tick s)); simpl;
      (split; [reflexivity|]; intros v [H|[]]; discriminate).
  - apply leaves_ret.
Qed.

Lemma leaves_sleep : leaves_watermark sleep.
Proof. intros s. simpl. split; [reflexivity|]. intros v [H|[]]. discriminate. Qed.

Lemma leaves_process_task (e : entry) (img_name : string)
    (scores : gmap string Q) (item : string) :
  leaves_watermark (process_task env self e img_name scores item).
Proof.
  unfold process_task.
  apply leaves_bind; [apply leaves_now|]. intros ts.
  apply leaves_bind; [apply leaves_redis_call; discriminate|]. intros _.
  apply leaves_bind; [|intros _; apply leaves_notify].
  destruct (Py.startswith _ _).
  - apply leaves_redis_call; discriminate.
  - apply leaves_ret.
Qed.

Lemma leaves_process_entry (e : entry) :
  leaves_watermark (_process_entry env self e).
Proof.
  unfold _process_entry.
  destruct (negb _); [apply leaves_ret|].
  destruct (negb _); [apply leaves_ret|].
  destruct (imread env _) as [img|]; [|apply leaves_ret].
  apply leaves_bind; [apply leaves_model_predict|]. intros rows.
  apply leaves_bind; [apply leaves_lift|]. intros scores.
  apply leaves_for_each. intros item. apply leaves_process_task.
Qed.

Lemma leaves_drain_queue (fuel : nat) :
  leaves_watermark (drain_queue env self fuel).
Proof.
  induction fuel as [|fuel IH]; simpl; [apply leaves_lift|].
  apply leaves_bind; [apply leaves_redis_call; discriminate|].
  intros [[|c payload]|]; try apply leaves_ret.
  destruct (json_loads env _) as [e|]; [|exact IH].
  apply leaves_bind; [apply leaves_process_entry | intros _; exact IH].
Qed.

Lemma keeps_scan_entry (e : entry) :
  keeps_watermark (scan_entry env self e).
Proof.
  intros s. unfold scan_entry, bind, get_last_ts, set_last_ts. simpl.
  pose proof (leaves_keeps _ (leaves_process_entry e)
                (MkState (redis s) (tick s)
                   (Z.max (last_ts s) (default 0 (e_ts e))))) as [Hn Hl].
  destruct (_process_entry env self e _) as [[r s1] t1]. simpl in *.
  repeat split; try assumption. lia.
Qed.

Lemma keeps_scan_person_logs :
  keeps_watermark (scan_person_logs env self).
Proof.
  unfold scan_person_logs.
  apply keeps_bind; [apply leaves_keeps; intros s; simpl; auto|]. intros w.
  apply keeps_bind;
    [apply leaves_keeps, leaves_redis_call; discriminate|]. intros members.
  apply keeps_bind; [apply leaves_keeps, leaves_lift|]. intros entries.
  apply keeps_for_each. intros e. apply keeps_scan_entry.
Qed.

Lemma keeps_cycle (fuel : nat) : keeps_watermark (cycle env self fuel).
Proof.
  unfold cycle.
  apply keeps_bind; [apply leaves_keeps, leaves_drain_queue|]. intros _.
  apply keeps_bind; [apply keeps_scan_person_logs|]. intros _.
  apply leaves_keeps, leaves_sleep.
Qed.

Lemma keeps_run (cycles fuel : nat) : keeps_watermark (run env self cycles fuel).
Proof.
  induction cycles as [|n IH]; simpl.
  - apply leaves_keeps, leaves_ret.
  - apply keeps_bind; [apply keeps_cycle | intros _; exact IH].
Qed.

End WorkerWatermark.

(** C5. Over any number of cycles of [run] (queue drains interleaved with
    scans of the legacy log), from any state and whatever the collaborators
    do, no assignment to [last_ts] lowers it, and the watermark at the end
    (also when the run ends in an exception) is at least the initial one. *)
Theorem watermark_monotonic
    (env : Env) (self : PPEDetector) (cycles fuel : nat) (s : state) :
  never_lowered (last_ts s) (trace (run env self cycles fuel s)) /\
  last_ts s <= last_ts (final (run env self cycles fuel s)).
Proof.
  destruct (keeps_run env self cycles fuel s) as [Hn Hl].
  split; [assumption|]. rewrite Hl. now apply never_lowered_le.
Qed.

(** ** Result Sink *)

Lemma zadd_logs_app (t1 t2 : list event) :
  zadd_logs (t1 ++ t2) = zadd_logs t1 ++ zadd_logs t2.
Proof. unfold zadd_logs. apply flat_map_app. Qed.

Lemma bind_ok {A B} (m : M A) (f : A -> M B) (s : state) (b : B) :
  outcome (bind m f s) = Ok b ->
  exists a,
    outcome (m s) = Ok a /\
    outcome (f a (final (m s))) = Ok b /\
    trace (bind m f s) = trace (m s) ++ trace (f a (final (m s))).
Proof.
  unfold bind. destruct (m s) as [[r s1] t1]. simpl.
  destruct r as [a| |]; simpl; try discriminate.
  destruct (f a s1) as [[r2 s2] t2] eqn:E. simpl. intros ->.
  exists a. rewrite E. auto.
Qed.

Section ResultSink.

Variable env : Env.
Variable self : PPEDetector.

Lemma status_of_compliant (item : string) (conf : Q) :
  (threshold self <= conf)%Q -> status_of self item conf = item.
Proof.
  intros H. unfold status_of, Py.ge.
  apply Qle_bool_iff in H. now rewrite H.
Qed.

Lemma status_of_violation (item : string) (conf : Q) :
  (conf < threshold self)%Q ->
  status_of self item conf = String.append "no_" item.
Proof.
  intros H. unfold status_of, Py.ge.
  destruct (Qle_bool (threshold self) conf) eqn:E; [|reflexivity].
  apply Qle_bool_iff in E. exfalso. eapply Qlt_not_le; eauto.
Qed.

Lemma process_task_ok (e : entry) (img_name : string)
    (scores : gmap string Q) (item : string) (s : state) :
  outcome (process_task env self e img_name scores item s) = Ok tt ->
  zadd_logs (trace (process_task env self e img_name scores item s))
  = [record_of self e img_name scores item (time_time env (tick s))].
Proof.
  unfold process_task, bind, now, redis_call, notify, ret, step. simpl.
  destruct (redis_up env (S (tick s))); simpl; [|discriminate].
  destruct (Py.startswith _ _); simpl.
  - destruct (redis_up env (S (S (tick s)))); simpl; [|discriminate].
    destruct (update_callback self) as [returns|]; simpl; [|reflexivity].
    destruct (returns _); simpl; [reflexivity|discriminate].
  - destruct (update_callback self) as [returns|]; simpl; [|reflexivity].
    destruct (returns _); simpl; [reflexivity|discriminate].
Qed.

Lemma for_each_tasks_ok (e : entry) (img_name : string)
    (scores : gmap string Q) (tasks : list string) :
  forall s,
    outcome (for_each (process_task env self e img_name scores) tasks s)
    = Ok tt ->
    Forall2 (fun item log =>
               exists ts, log = record_of self e img_name scores item ts)
            tasks
            (zadd_logs
               (trace (for_each (process_task env self e img_name scores)
                         tasks s))).
Proof.
  induction tasks as [|item tasks IH]; intros s H.
  - constructor.
  - cbn [for_each] in H |- *. apply bind_ok in H as (u & H1 & H2 & Ht). rewrite Ht, zadd_logs_app.
    destruct u. rewrite (process_task_ok _ _ _ _ _ H1). simpl.
    constructor; [eauto | now apply IH].
Qed.

End ResultSink.

Lemma process_entry_reaches_sink
    (env : Env) (self : PPEDetector) (e : entry) (s : state)
    (tasks : list string) (img : image) (scores : gmap string Q) :
  resolve_tasks self e = Some tasks ->
  tasks <> [] ->
  Py.truthy_str (e_path e) = true ->
  imread env (resolve_path self (default "" (e_path e))) = Some img ->
  build_scores (names env) (predict env img) ∅ = Ok scores ->
  _process_entry env self e s
  = let out := for_each
                 (process_task env self e
                    (PathLib.name (resolve_path self (default "" (e_path e))))
                    scores)
                 tasks (step s) in
    (outcome out, final out, EvPredict img :: trace out).
Proof.
  intros Htasks Hne Hpath Himg Hscores.
  unfold _process_entry. rewrite Htasks, Hpath, Himg.
  destruct tasks as [|t0 tasks]; [congruence|].
  cbn [Py.truthy_list negb default].
  unfold bind at 1. cbn [model_predict].
  unfold bind at 1. cbn [lift]. rewrite Hscores.
  destruct (for_each _ _ _) as [[r s2] t2]. reflexivity.
Qed.

(** C1. When an event reaches the Result Sink (its image loads and the
    scores are built) and processing completes, the records written are,
    task by task in the order of the task list, those whose confidence is
    [scores.get(task, 0)] and whose status is the task name when the
    confidence is at least the threshold and ["no_" + task] otherwise; a
    confidence exactly equal to the threshold gives the task name. The
    threshold is the single value [cfg.get("helmet_conf_thresh", 0.5)], the
    same for all tasks. *)
Theorem result_sink_status
    (env : Env) (self : PPEDetector) (e : entry) (s : state)
    (tasks : list string) (img : image) (scores : gmap string Q) :
  resolve_tasks self e = Some tasks ->
  Py.truthy_str (e_path e) = true ->
  imread env (resolve_path self (default "" (e_path e))) = Some img ->
  build_scores (names env) (predict env img) ∅ = Ok scores ->
  outcome (_process_entry env self e s) = Ok tt ->
  Forall2
    (fun item log =>
       l_conf log = scores_get scores item /\
       ((threshold self <= scores_get scores item)%Q -> l_status log = item) /\
       ((scores_get scores item < threshold self)%Q ->
        l_status log = String.append "no_" item) /\
       ((scores_get scores item == threshold self)%Q -> l_status log = item))
    tasks (zadd_logs (trace (_process_entry env self e s))) /\
  (helmet_conf_thresh (cfg self) = None -> threshold self = (1 # 2)%Q).
Proof.
  intros Htasks Hpath Himg Hscores Hok. split.
  - destruct tasks as [|t0 tasks].
    { unfold _process_entry. rewrite Htasks. constructor. }
    rewrite (process_entry_reaches_sink env self e s (t0 :: tasks) img scores)
      in * by (assumption || discriminate).
    cbn [outcome final trace fst snd zadd_logs flat_map app] in *.
    eapply Forall2_impl; [apply (for_each_tasks_ok _ _ _ _ _ _ _ Hok)|].
    intros item log [ts ->]. cbn [record_of l_conf l_status].
    repeat split.
    + apply status_of_compliant.
    + apply status_of_violation.
    + intros Heq. apply status_of_compliant. rewrite Heq. apply Qle_refl.
  - intros Hnone. unfold threshold. now rewrite Hnone.
Qed.

Lemma result_sink_status_witness :
  exists scores,
    build_scores (names Sample.env)
                 (predict Sample.env (Image [1; 2; 3])) ∅ = Ok scores /\
    outcome (_process_entry Sample.env Sample.detector Sample.helmet_vest
               Sample.start) = Ok tt /\
    Forall2
      (fun item log =>
         l_conf log = scores_get scores item /\
         ((threshold Sample.detector <= scores_get scores item)%Q ->
          l_status log = item) /\
         ((scores_get scores item < threshold Sample.detector)%Q ->
          l_status log = String.append "no_" item) /\
         ((scores_get scores item == threshold Sample.detector)%Q ->
          l_status log = item))
      ["helmet"; "vest"]
      (zadd_logs (trace (_process_entry Sample.env Sample.detector
                           Sample.helmet_vest Sample.start))).
Proof.
  eexists. split; [reflexivity|]. split; [reflexivity|].
  apply (result_sink_status Sample.env Sample.detector Sample.helmet_vest
           Sample.start ["helmet"; "vest"] (Image [1; 2; 3]));
    reflexivity.
Defined.

(** C6. An event whose task list resolves, after the fallback to
    [cfg["track_ppe"]] and then to the empty list, to [None] or to the
    empty list is skipped: [_process_entry] returns at once, the state
    (records, counters) is unchanged and nothing is done to the outside,
    so the model is never invoked. *)
Theorem empty_tasks_skipped
    (env : Env) (self : PPEDetector) (e : entry) (s : state) :
  resolve_tasks self e = None \/ resolve_tasks self e = Some [] ->
  outcome (_process_entry env self e s) = Ok tt /\
  final (_process_entry env self e s) = s /\
  trace (_process_entry env self e s) = [].
Proof.
  intros H. unfold _process_entry.
  destruct H as [-> | ->]; simpl; auto.
Qed.

Lemma empty_tasks_skipped_witness :
  resolve_tasks Sample.detector Sample.no_tasks = Some [] /\
  outcome (_process_entry Sample.env Sample.detector Sample.no_tasks
             Sample.start) = Ok tt /\
  final (_process_entry Sample.env Sample.detector Sample.no_tasks
           Sample.start) = Sample.start /\
  trace (_process_entry Sample.env Sample.detector Sample.no_tasks
           Sample.start) = [].
Proof.
  split; [reflexivity|].
  apply (empty_tasks_skipped Sample.env Sample.detector Sample.no_tasks
           Sample.start).
  right. reflexivity.
Defined.

(** C10. The counter is keyed on the status string alone: for a task whose
    own name begins with ["no_"] and whose confidence reaches the
    threshold, the status is the task name, and (Redis being reachable for
    the two calls) the counter ["<task>_count"] is incremented by one. *)
Theorem no_prefixed_task_counted
    (env : Env) (self : PPEDetector) (e : entry) (img_name : string)
    (scores : gmap string Q) (item : string) (s : state) :
  Py.startswith "no_" item = true ->
  (threshold self <= scores_get scores item)%Q ->
  redis_up env (S (tick s)) = true ->
  redis_up env (S (S (tick s))) = true ->
  let out := process_task env self e img_name scores item s in
  List.map l_status (zadd_logs (trace out)) = [item] /\
  In (EvIncr (String.append item "_count")) (trace out) /\
  Redis.counter (String.append item "_count") (redis (final out))
  = Redis.counter (String.append item "_count") (redis s) + 1.
Proof.
  intros Hpre Hconf Hup1 Hup2.
  unfold process_task, bind, now, redis_call, notify, ret, step.
  cbn [redis tick last_ts]. rewrite Hup1.
  rewrite (status_of_compliant self item _ Hconf), Hpre.
  cbn [redis tick last_ts]. rewrite Hup2.
  destruct (update_callback self) as [returns|]; [destruct (returns _)|];
    cbn; (split; [reflexivity|]); (split; [auto|]);
    unfold Redis.counter at 1; cbn; now rewrite lookup_insert_eq.
Qed.

Lemma no_prefixed_task_counted_witness :
  Py.startswith "no_" "no_mask" = true /\
  (threshold Sample.detector
   <= scores_get (<["no_mask" := (9 # 10)%Q]> Sample.scores) "no_mask")%Q /\
  Redis.counter "no_mask_count"
    (redis (final (process_task Sample.env Sample.detector Sample.helmet_vest
                     "a.jpg" (<["no_mask" := (9 # 10)%Q]> Sample.scores)
                     "no_mask" Sample.start)))
  = Redis.counter "no_mask_count" (redis Sample.start) + 1.
Proof.
  split; [reflexivity|]. split; [vm_compute; discriminate|].
  apply (no_prefixed_task_counted Sample.env Sample.detector
           Sample.helmet_vest "a.jpg"
           (<["no_mask" := (9 # 10)%Q]> Sample.scores) "no_mask" Sample.start);
    try reflexivity.
  vm_compute. discriminate.
Defined.

(** ** Failure of one task *)

Lemma for_each_app_raise {A} (f : A -> M unit) (pre : list A) :
  forall (x : A) (post : list A) (s s1 s2 : state) (t1 t2 : list event)
         (err : exn),
    for_each f pre s = (Ok tt, s1, t1) ->
    f x s1 = (Raise err, s2, t2) ->
    for_each f (pre ++ x :: post) s = (Raise err, s2, t1 ++ t2).
Proof.
  induction pre as [|y pre IH]; intros x post s s1 s2 t1 t2 err Hpre Hx.
  - cbn in Hpre. inversion Hpre; subst.
    cbn [app for_each]. unfold bind. now rewrite Hx.
  - cbn [app for_each] in *. unfold bind in *.
    destruct (f y s) as [[r sy] ty].
    destruct r as [u| |]; try discriminate.
    destruct (for_each f pre sy) as [[r' s'] t'] eqn:E.
    inversion Hpre; subst.
    rewrite (IH x post sy s1 s2 t' t2 err E Hx).
    now rewrite app_assoc.
Qed.

(** C2, as the code has it. The loop over the tasks has no handler: when
    processing one task raises, the exception leaves the loop with the
    state and the trace reached at the failure, so the tasks before it have
    their records and none of the remaining tasks is evaluated or
    persisted. *)
Theorem task_failure_aborts_event
    (env : Env) (self : PPEDetector) (e : entry) (img_name : string)
    (scores : gmap string Q) (pre : list string) (item : string)
    (post : list string) (s s1 s2 : state) (t1 t2 : list event) (err : exn) :
  for_each (process_task env self e img_name scores) pre s = (Ok tt, s1, t1) ->
  process_task env self e img_name scores item s1 = (Raise err, s2, t2) ->
  for_each (process_task env self e img_name scores) (pre ++ item :: post) s
  = (Raise err, s2, t1 ++ t2) /\
  Forall2 (fun it log => exists ts, log = record_of self e img_name scores it ts)
          pre (zadd_logs t1).
Proof.
  intros Hpre Hitem. split.
  - eapply for_each_app_raise; eauto.
  - pose proof (for_each_tasks_ok env self e img_name scores pre s) as H.
    rewrite Hpre in H. now apply H.
Qed.

Lemma task_failure_aborts_event_witness :
  for_each (process_task Sample.env_blip Sample.detector Sample.helmet_vest
              "a.jpg" Sample.scores)
           ([] ++ "helmet" :: ["vest"]) (step Sample.start)
  = (Raise ConnectionError, MkState Sample.empty_redis 3 0, [] ++ []) /\
  Forall2 (fun it log =>
             exists ts, log = record_of Sample.detector Sample.helmet_vest
                                "a.jpg" Sample.scores it ts)
          [] (zadd_logs []).
Proof.
  apply (task_failure_aborts_event Sample.env_blip Sample.detector
           Sample.helmet_vest "a.jpg" Sample.scores [] "helmet" ["vest"]
           (step Sample.start) (step Sample.start));
    reflexivity.
Defined.

(** C2, as stated, fails: Redis is unreachable for the ZADD of the first
    task only; the exception ends [_process_entry], and no record is
    written for the second task although processing it would succeed. *)
Lemma task_failure_not_isolated :
  outcome (_process_entry Sample.env_blip Sample.detector Sample.helmet_vest
             Sample.start) = Raise ConnectionError /\
  outcome (process_task Sample.env_blip Sample.detector Sample.helmet_vest
             "a.jpg" Sample.scores "vest"
             (final (_process_entry Sample.env_blip Sample.detector
                       Sample.helmet_vest Sample.start))) = Ok tt /\
  ~ remaining_tasks_persisted
      (trace (_process_entry Sample.env_blip Sample.detector
                Sample.helmet_vest Sample.start))
      ["vest"].
Proof.
  split; [reflexivity|]. split; [reflexivity|].
  intros H. destruct (H "vest") as (log & Hin & _); [now left|].
  vm_compute in Hin. exact Hin.
Qed.

(** ** Order of the watermark update and the processing of an entry *)

(** C4, as the code has it. For each entry of a legacy-log scan the
    assignment [last_ts = max(last_ts, entry.get("ts", 0))] comes first and
    [_process_entry] runs after it: the entry is processed in a state whose
    watermark already covers its timestamp, every record of the entry is
    written after the assignment, and processing leaves the watermark as
    assigned. *)
Theorem watermark_set_before_processing
    (env : Env) (self : PPEDetector) (e : entry) (s : state) :
  let w := Z.max (last_ts s) (default 0 (e_ts e)) in
  let out := _process_entry env self e (MkState (redis s) (tick s) w) in
  scan_entry env self e s = (outcome out, final out, EvSetLastTs w :: trace out) /\
  default 0 (e_ts e) <= w /\
  last_ts (final out) = w.
Proof.
  intros w out. repeat split.
  - unfold scan_entry, bind, get_last_ts, set_last_ts. cbn [last_ts].
    fold w. fold out. destruct out as [[r s1] t1]. reflexivity.
  - unfold w. lia.
  - apply (leaves_process_entry env self e (MkState (redis s) (tick s) w)).
Qed.

(** C4, as stated, fails: scanning one entry with timestamp 5 from
    watermark 0 assigns the watermark first, and both records of the entry
    are written after that assignment. *)
Lemma records_written_after_watermark :
  ~ records_precede_watermark
      (trace (scan_entry Sample.env Sample.detector Sample.helmet_vest
                Sample.start)).
Proof.
  intros H.
  specialize (H [] 5
                (trace (_process_entry Sample.env Sample.detector
                          Sample.helmet_vest (MkState Sample.empty_redis 0 5)))
                eq_refl).
  vm_compute in H. discriminate H.
Qed.

(** ** Draining the work queue *)

(** A popped item that is not empty and fails to parse is discarded: the
    drain goes on with the rest of the queue, the watermark and everything
    else in Redis untouched. *)
Lemma drain_discards_malformed
    (env : Env) (self : PPEDetector) (fuel : nat) (payload : string)
    (rest : list string) (s : state) :
  Redis.ppe_queue (redis s) = payload :: rest ->
  payload <> "" ->
  json_loads env payload = None ->
  redis_up env (tick s) = true ->
  let s' := MkState (Redis.Mk rest (Redis.person_logs (redis s))
                       (Redis.ppe_logs (redis s)) (Redis.counters (redis s)))
                    (S (tick s)) (last_ts s) in
  let out := drain_queue env self fuel s' in
  drain_queue env self (S fuel) s
  = (outcome out, final out, EvLpop (Some payload) :: trace out).
Proof.
  intros Hq Hne Hparse Hup s' out.
  cbn [drain_queue]. unfold bind, redis_call, Redis.lpop.
  rewrite Hup, Hq.
  destruct payload as [|c payload]; [congruence|].
  rewrite Hparse. fold s'. fold out.
  destruct out as [[r s1] t1]. reflexivity.
Qed.

Example drain_discards_malformed_sample :
  drain_queue Sample.env Sample.detector 3 Sample.queue_with_malformed
  = (let out := drain_queue Sample.env Sample.detector 2
                  (MkState (Redis.Mk [Sample.payload] [] [] ∅) 1 0) in
     (outcome out, final out, EvLpop (Some "{oops") :: trace out)) /\
  List.map l_status
    (zadd_logs (trace (drain_queue Sample.env Sample.detector 3
                         Sample.queue_with_malformed)))
  = ["helmet"; "no_vest"].
Proof.
  split; [|reflexivity].
  apply (drain_discards_malformed Sample.env Sample.detector 2 "{oops"
           [Sample.payload] Sample.queue_with_malformed);
    (reflexivity || discriminate).
Qed.

Ltac keeps_queue_prim :=
  let s := fresh "s" in
  intros s; cbn; split; [reflexivity | discriminate].

Lemma keeps_queue_bind {A B} (m : M A) (f : A -> M B) :
  keeps_queue m -> (forall a, keeps_queue (f a)) -> keeps_queue (bind m f).
Proof.
  intros Hm Hf s. unfold bind. specialize (Hm s).
  destruct (m s) as [[r s1] t1]. cbn in Hm. destruct Hm as [Hq Hr].
  destruct r as [a| |]; cbn; auto.
  specialize (Hf a s1). destruct (f a s1) as [[r2 s2] t2]. cbn in *.
  destruct Hf as [Hq2 Hr2]. split; congruence.
Qed.

Lemma keeps_queue_for_each {A} (f : A -> M unit) (l : list A) :
  (forall x, keeps_queue (f x)) -> keeps_queue (for_each f l).
Proof.
  intros Hf. induction l as [|x l IH]; cbn [for_each].
  - keeps_queue_prim.
  - apply keeps_queue_bind; auto.
Qed.

Lemma build_scores_returns (names : Z -> option string) (rows : list box) :
  forall scores, build_scores names rows scores <> OutOfFuel.
Proof.
  induction rows as [|b rows IH]; intros scores; cbn; [discriminate|].
  destruct (names _); [apply IH | discriminate].
Qed.

Lemma keeps_queue_redis_call (env : Env) {A} (f : Redis.t -> Redis.t)
    (a : A) (ev : A -> event) :
  (forall r, Redis.ppe_queue (f r) = Redis.ppe_queue r) ->
  keeps_queue (redis_call env (fun r => (a, f r)) ev).
Proof.
  intros Hf s. unfold redis_call.
  destruct (redis_up env _); cbn; (split; [auto | discriminate]).
Qed.

Lemma keeps_queue_process_entry (env : Env) (self : PPEDetector) (e : entry) :
  keeps_queue (_process_entry env self e).
Proof.
  unfold _process_entry.
  destruct (negb _); [keeps_queue_prim|].
  destruct (negb _); [keeps_queue_prim|].
  destruct (imread env _) as [img|]; [|keeps_queue_prim].
  apply keeps_queue_bind; [keeps_queue_prim|]. intros rows.
  apply keeps_queue_bind.
  { intros s. cbn. split; [reflexivity | apply build_scores_returns]. }
  intros scores.
  apply keeps_queue_for_each. intros item. unfold process_task.
  apply keeps_queue_bind; [keeps_queue_prim|]. intros ts.
  apply keeps_queue_bind; [now apply keeps_queue_redis_call|].
  intros _. apply keeps_queue_bind.
  { destruct (Py.startswith _ _);
      [now apply keeps_queue_redis_call | keeps_queue_prim]. }
  intros _. unfold notify.
  destruct (update_callback self) as [returns|]; [|keeps_queue_prim].
  intros s. destruct (returns _); cbn; (split; [reflexivity | discriminate]).
Qed.

(** The drain loop returns: with more fuel than there are queued items it
    ends by [break] or by an exception, never for want of fuel. *)
Lemma drain_queue_returns (env : Env) (self : PPEDetector) (fuel : nat) :
  forall s,
    (length (Redis.ppe_queue (redis s)) < fuel)%nat ->
    outcome (drain_queue env self fuel s) <> OutOfFuel.
Proof.
  induction fuel as [|fuel IH]; intros s Hlen; [lia|].
  cbn [drain_queue]. unfold bind at 1. unfold redis_call, Redis.lpop.
  destruct (redis_up env (tick s)); [|cbn; discriminate].
  destruct (Redis.ppe_queue (redis s)) as [|payload rest] eqn:Hq;
    [cbn; discriminate|].
  destruct payload as [|c payload]; [cbn; discriminate|].
  cbn [length] in Hlen.
  destruct (json_loads env _) as [e|].
  - unfold bind.
    pose proof (keeps_queue_process_entry env self e
                  (MkState (Redis.Mk rest (Redis.person_logs (redis s))
                              (Redis.ppe_logs (redis s))
                              (Redis.counters (redis s)))
                           (S (tick s)) (last_ts s))) as [Hk Hr].
    destruct (_process_entry env self e _) as [[r s1] t1]. cbn in Hk, Hr.
    destruct r as [u| |]; [|cbn; discriminate|congruence].
    specialize (IH s1). rewrite Hk in IH.
    destruct (drain_queue env self fuel s1) as [[r2 s2] t2].
    cbn in *. apply IH. lia.
  - specialize (IH (MkState (Redis.Mk rest (Redis.person_logs (redis s))
                               (Redis.ppe_logs (redis s))
                               (Redis.counters (redis s)))
                            (S (tick s)) (last_ts s))).
    destruct (drain_queue env self fuel _) as [[r2 s2] t2].
    cbn in *. apply IH. lia.
Qed.

(** C7 at an empty payload. The empty payload does not parse, yet the
    drain does not go on to the next item: [not queued] holds for it as it
    does for an empty queue, and the loop is left with the well-formed item
    still queued and unprocessed. *)
Theorem empty_payload_halts_drain (fuel : nat) :
  json_loads Sample.env "" = None /\
  json_loads Sample.env Sample.payload = Some Sample.helmet_vest /\
  drain_queue Sample.env Sample.detector (S fuel) Sample.queue_with_empty
  = (Ok tt, MkState (Redis.Mk [Sample.payload] [] [] ∅) 1 0,
     [EvLpop (Some "")]).
Proof. repeat split. Qed.

(** ** Stats Relay *)

Section Relay.

Variable env : Dashboard.Env.

Lemma ws_forward_text (messages : list Dashboard.message) :
  forall last_id n,
    Forall is_text (snd (Dashboard.ws_forward env messages last_id n)).
Proof.
  induction messages as [|[sid f] rest IH]; intros last_id n;
    cbn [Dashboard.ws_forward]; [constructor|].
  destruct (Dashboard.data_of f) as [d|]; [|apply IH].
  destruct (Py.truthy_text (Some d)); [|apply IH].
  destruct (Dashboard.ws_up env n); [|constructor].
  specialize (IH (Py.decode_if_bytes sid) (S n)).
  destruct (Dashboard.ws_forward env rest _ _) as [[[c l] m] out].
  cbn [snd] in *. constructor; [eexists; reflexivity | exact IH].
Qed.

Lemma ws_tail_text (fuel : nat) :
  forall last_id k n,
    Forall is_text (snd (Dashboard.ws_tail env fuel last_id k n)).
Proof.
  induction fuel as [|fuel IH]; intros last_id k n;
    cbn [Dashboard.ws_tail]; [constructor|].
  destruct (Dashboard.xread env last_id k) as [|[name messages] others];
    [apply IH|].
  pose proof (ws_forward_text messages last_id n) as Hf.
  destruct (Dashboard.ws_forward env messages last_id n) as [[[c l] m] out].
  cbn [snd] in Hf. destruct c; [|exact Hf].
  specialize (IH l (S k) m).
  destruct (Dashboard.ws_tail env fuel l (S k) m) as [r out'].
  cbn [snd] in *. apply Forall_app. auto.
Qed.

Lemma sse_forward_text (messages : list Dashboard.message) :
  forall last_id,
    Forall is_text (snd (Dashboard.sse_forward messages last_id)).
Proof.
  induction messages as [|[sid f] rest IH]; intros last_id;
    cbn [Dashboard.sse_forward]; [constructor|].
  specialize (IH (Py.decode_if_bytes sid)).
  destruct (Dashboard.sse_forward rest _) as [l out]. cbn [snd] in IH.
  destruct (Dashboard.data_of f) as [d|]; [|exact IH].
  destruct (Py.truthy_text (Some d)); [|exact IH].
  cbn [snd]. constructor; [eexists; reflexivity | exact IH].
Qed.

Lemma event_gen_text (fuel : nat) :
  forall last_id k, Forall is_text (Dashboard.event_gen env fuel last_id k).
Proof.
  induction fuel as [|fuel IH]; intros last_id k;
    cbn [Dashboard.event_gen]; [constructor|].
  destruct (Dashboard.xread env last_id k) as [|[name messages] others];
    [apply IH|].
  pose proof (sse_forward_text messages last_id) as Hf.
  destruct (Dashboard.sse_forward messages last_id) as [l out].
  cbn [snd] in Hf. apply Forall_app. auto.
Qed.

(** The websocket endpoint sends the snapshot of the live state first and
    exactly once; everything after it is stream data. *)
Lemma ws_stats_snapshot_first (fuel : nat) (live : Redis.t) :
  Dashboard.ws_up env 0 = true ->
  exists r out,
    Dashboard.ws_stats env fuel live
    = (r, Dashboard.Snapshot (Dashboard.gather_stats env live) :: out) /\
    Forall is_text out.
Proof.
  intros Hup. unfold Dashboard.ws_stats. rewrite Hup.
  pose proof (ws_tail_text fuel "$" 0%nat 1%nat) as Ht.
  destruct (Dashboard.ws_tail env fuel "$" 0%nat 1%nat) as [r out].
  exists r, out. auto.
Qed.

Lemma sse_stats_no_snapshot (fuel : nat) (stats : string) :
  ~ In (Dashboard.Snapshot stats) (Dashboard.sse_stats env fuel).
Proof.
  intros Hin. unfold Dashboard.sse_stats in Hin.
  pose proof (event_gen_text fuel "$" 0%nat) as Ht.
  rewrite List.Forall_forall in Ht. destruct (Ht _ Hin) as [d Hd]. discriminate.
Qed.

End Relay.

(** C3 on the SSE endpoint. A subscriber of [/sse/stats] whose first read
    returns the stream message ["m1"] is sent that message and nothing
    before it: [event_gen] starts tailing at once, and no frame it yields,
    on any input, is a snapshot; the websocket endpoint does send one. *)
Theorem sse_subscriber_gets_no_snapshot :
  Dashboard.sse_stats Sample.dash_env 2
  = [Dashboard.Text
       (String.append "data: m1" (String "010" (String "010" "")))] /\
  (forall env fuel stats,
      ~ In (Dashboard.Snapshot stats) (Dashboard.sse_stats env fuel)) /\
  Dashboard.ws_stats Sample.dash_env 2 Sample.empty_redis
  = (OutOfFuel, [Dashboard.Snapshot "{}"; Dashboard.Text "m1"]).
Proof.
  split; [reflexivity|]. split; [|reflexivity].
  intros env fuel stats. apply sse_stats_no_snapshot.
Qed.

(** ** Latest images *)

Lemma zrevrange_window (stop : nat) (older recent : Redis.zset) :
  length recent = S stop ->
  Redis.zrevrange_to stop (older ++ recent) = List.map fst (List.rev recent).
Proof.
  intros Hlen. unfold Redis.zrevrange_to.
  rewrite rev_app_distr, map_app, firstn_app.
  rewrite length_map, length_rev, Hlen, Nat.sub_diag.
  cbn [firstn]. rewrite app_nil_r.
  apply firstn_all2. rewrite length_map, length_rev. lia.
Qed.

Lemma collect_unwanted (env : Dashboard.Env) (status : string) (count : Z)
    (entries : list string) :
  forall imgs,
    forallb (unwanted env status) entries = true ->
    Dashboard.collect env status count entries imgs = Ok imgs.
Proof.
  induction entries as [|item rest IH]; intros imgs H; cbn in *;
    [reflexivity|].
  apply andb_prop in H as [Hitem Hrest]. unfold unwanted in Hitem.
  destruct (Dashboard.loads_log env item) as [e|]; [|discriminate].
  apply negb_true_iff in Hitem. rewrite Hitem. now apply IH.
Qed.

(** C9. [latest_images] reads the log through [zrevrange(0, 1000)]: its
    result is a function of the 1001 most recent entries alone, whatever
    lies below them; when none of those 1001 is selected for the status,
    the result is empty, hence shorter than any positive [count], however
    many older entries carry that status. *)
Theorem latest_images_window
    (env : Dashboard.Env) (status : string) (count : Z)
    (older older' recent : Redis.zset) (r r' : Redis.t) :
  Redis.ppe_logs r = older ++ recent ->
  Redis.ppe_logs r' = older' ++ recent ->
  length recent = 1001%nat ->
  forallb (unwanted env status) (List.map fst recent) = true ->
  0 < count ->
  Dashboard.latest_images env status count r
  = Dashboard.latest_images env status count r' /\
  exists imgs,
    Dashboard.latest_images env status count r = Ok imgs /\
    Z.of_nat (length imgs) < count.
Proof.
  intros Hr Hr' Hlen Hun Hcount. unfold Dashboard.latest_images.
  rewrite Hr, Hr', !(zrevrange_window 1000 _ recent Hlen).
  split; [reflexivity|].
  exists []. split; [|simpl; lia].
  apply collect_unwanted.
  rewrite forallb_forall in *. intros m Hm.
  apply Hun. rewrite List.map_rev in Hm. now apply List.in_rev.
Qed.

Lemma latest_images_window_witness :
  unwanted Sample.dash_env "no_helmet" "old" = false /\
  Dashboard.latest_images Sample.dash_env "no_helmet" 5 Sample.deep_log
  = Dashboard.latest_images Sample.dash_env "no_helmet" 5 Sample.recent_log /\
  exists imgs,
    Dashboard.latest_images Sample.dash_env "no_helmet" 5 Sample.deep_log
    = Ok imgs /\
    Z.of_nat (length imgs) < 5.
Proof.
  split; [reflexivity|].
  apply (latest_images_window Sample.dash_env "no_helmet" 5
           [("old", 1)] [] Sample.recent Sample.deep_log Sample.recent_log);
    try (vm_compute; reflexivity).
Defined.

(** * Further properties of the worker *)

(** ** Device selection in [__init__] *)

(** X1. Without CUDA the worker never loads the model on a CUDA device,
    whatever [cfg["device"]] holds (absent, [None], empty, ["auto"],
    ["cuda:1"], ...), and so never switches the model to half precision. *)
Theorem select_device_without_cuda (configured : option (option string)) :
  Py.startswith "cuda" (fst (select_device configured false)) = false /\
  uses_half (fst (select_device configured false)) = false.
Proof.
  assert (H : Py.startswith "cuda" (fst (select_device configured false))
              = false).
  { unfold select_device.
    match goal with
    | |- context [Py.startswith "cuda" ?d && _] =>
        destruct (Py.startswith "cuda" d) eqn:E
    end; cbn [fst andb negb]; [reflexivity | exact E]. }
  split; [exact H | exact H].
Qed.

(** X2. The selected device is never empty nor ["auto"]; an absent key
    gives ["cpu"]; ["auto"], an empty value or [None] pick ["cuda:0"]
    exactly when CUDA is available and never log the warning; the warning
    is logged only when CUDA is unavailable and the result is ["cpu"]. *)
Theorem select_device_resolved
    (configured : option (option string)) (cuda_available : bool) :
  fst (select_device configured cuda_available) <> "" /\
  fst (select_device configured cuda_available) <> "auto" /\
  select_device None cuda_available = ("cpu", false) /\
  select_device (Some None) cuda_available
  = (if cuda_available then "cuda:0" else "cpu", false) /\
  select_device (Some (Some "")) cuda_available
  = (if cuda_available then "cuda:0" else "cpu", false) /\
  select_device (Some (Some "auto")) cuda_available
  = (if cuda_available then "cuda:0" else "cpu", false) /\
  (snd (select_device configured cuda_available) = false \/
   (cuda_available = false /\
    fst (select_device configured cuda_available) = "cpu")).
Proof.
  assert (Hshape :
    forall d : string,
      d <> "" -> d <> "auto" ->
      fst (if Py.startswith "cuda" d && negb cuda_available
           then ("cpu", true) else (d, false)) <> "" /\
      fst (if Py.startswith "cuda" d && negb cuda_available
           then ("cpu", true) else (d, false)) <> "auto").
  { intros d H1 H2. destruct (_ && _); cbn; split; congruence. }
  assert (Hauto :
    (if cuda_available then "cuda:0" else "cpu") <> "" /\
    (if cuda_available then "cuda:0" else "cpu") <> "auto").
  { destruct cuda_available; split; discriminate. }
  assert (Hres :
    fst (select_device configured cuda_available) <> "" /\
    fst (select_device configured cuda_available) <> "auto").
  { unfold select_device.
    destruct (negb _ || _) eqn:E.
    - apply Hshape; apply Hauto.
    - apply orb_false_iff in E as [E1 E2].
      apply negb_false_iff in E1. apply String.eqb_neq in E2.
      apply Hshape; [|exact E2].
      destruct (Py.get_default configured (Some "cpu")) as [[|c d]|];
        cbn in *; congruence. }
  destruct Hres as [Hne Hna].
  do 6 (split; [first [assumption | destruct cuda_available; reflexivity]|]).
  unfold select_device.
  destruct (Py.startswith "cuda" _ && negb cuda_available) eqn:E;
    [right | left; reflexivity].
  apply andb_prop in E as [_ E]. apply negb_true_iff in E. auto.
Qed.

(** ** File names *)

Lemma no_slash_append (a b : string) :
  no_slash (String.append a b) = no_slash a && no_slash b.
Proof.
  induction a as [|c a IH]; [reflexivity|].
  change (String.append (String c a) b) with (String c (String.append a b)).
  cbn [no_slash]. rewrite IH. now rewrite andb_assoc.
Qed.

Lemma append_snoc (a : string) (c : ascii) (b : string) :
  String.append (String.append a (String c EmptyString)) b
  = String.append a (String c b).
Proof.
  induction a as [|x a IH]; [reflexivity|].
  change (String.append (String x a) (String c EmptyString))
    with (String x (String.append a (String c EmptyString))).
  change (String.append (String x (String.append a (String c EmptyString))) b)
    with (String x (String.append (String.append a (String c EmptyString)) b)).
  rewrite IH. reflexivity.
Qed.

Lemma append_empty_r (a : string) : String.append a EmptyString = a.
Proof.
  induction a as [|x a IH]; [reflexivity|].
  change (String.append (String x a) EmptyString)
    with (String x (String.append a EmptyString)).
  now rewrite IH.
Qed.

Lemma split_aux_no_slash (s : string) :
  forall cur, no_slash cur = true ->
              List.Forall (fun c => no_slash c = true) (PathLib.split_aux s cur).
Proof.
  induction s as [|c s IH]; intros cur Hcur; cbn [PathLib.split_aux].
  - constructor; [assumption | constructor].
  - destruct (Ascii.eqb c PathLib.slash) eqn:E.
    + constructor; [assumption | now apply IH].
    + apply IH. rewrite no_slash_append, Hcur. cbn. now rewrite E.
Qed.

Lemma last_Forall {A} (P : A -> Prop) (l : list A) (d : A) :
  P d -> List.Forall P l -> P (List.last l d).
Proof.
  intros Hd H. induction H as [|x l Hx Hl IH]; [exact Hd|].
  destruct l as [|y l]; [exact Hx | exact IH].
Qed.

Lemma Forall_filter_keep {A} (P : A -> Prop) (f : A -> bool) (l : list A) :
  List.Forall P l -> List.Forall P (List.filter f l).
Proof.
  intros H. induction H as [|x l Hx Hl IH]; cbn; [constructor|].
  destruct (f x); [constructor; assumption | assumption].
Qed.

Lemma name_no_slash (p : string) : no_slash (PathLib.name p) = true.
Proof.
  unfold PathLib.name.
  apply (last_Forall (fun c => no_slash c = true)); [reflexivity|].
  apply Forall_filter_keep. now apply split_aux_no_slash.
Qed.

Lemma basename_no_slash (p : string) : no_slash (PathLib.basename p) = true.
Proof.
  unfold PathLib.basename.
  apply (last_Forall (fun c => no_slash c = true)); [reflexivity|].
  now apply split_aux_no_slash.
Qed.

Lemma split_aux_bare (s : string) :
  forall cur, no_slash s = true ->
              PathLib.split_aux s cur = [String.append cur s].
Proof.
  induction s as [|c s IH]; intros cur H; cbn in *.
  - now rewrite append_empty_r.
  - apply andb_prop in H as [Hc Hs]. apply negb_true_iff in Hc.
    rewrite Hc, (IH _ Hs). now rewrite append_snoc.
Qed.

Lemma basename_bare (s : string) :
  no_slash s = true -> PathLib.basename s = s.
Proof.
  intros H. unfold PathLib.basename, PathLib.split.
  now rewrite (split_aux_bare s EmptyString H).
Qed.

(** ** Shape of the events of a run *)

Lemma trace_sat_ret {A} (P : event -> Prop) (a : A) : trace_sat P (ret a).
Proof. intros s. constructor. Qed.

Lemma trace_sat_lift {A} (P : event -> Prop) (r : result A) :
  trace_sat P (lift r).
Proof. intros s. constructor. Qed.

Lemma trace_sat_bind {A B} (P : event -> Prop) (m : M A) (f : A -> M B) :
  trace_sat P m -> (forall a, trace_sat P (f a)) -> trace_sat P (bind m f).
Proof.
  intros Hm Hf s. unfold bind. specialize (Hm s).
  destruct (m s) as [[r s1] t1]. cbn in Hm.
  destruct r as [a| |]; cbn; auto.
  specialize (Hf a s1). destruct (f a s1) as [[r2 s2] t2]. cbn in *.
  apply List.Forall_app. auto.
Qed.

Lemma trace_sat_for_each {A} (P : event -> Prop) (f : A -> M unit)
    (l : list A) :
  (forall x, trace_sat P (f x)) -> trace_sat P (for_each f l).
Proof.
  intros Hf. induction l as [|x l IH]; cbn [for_each].
  - apply trace_sat_ret.
  - apply trace_sat_bind; auto.
Qed.

Lemma trace_sat_redis_call (env : Env) {A} (P : event -> Prop)
    (op : Redis.t -> A * Redis.t) (ev : A -> event) :
  (forall a, P (ev a)) -> trace_sat P (redis_call env op ev).
Proof.
  intros Hev s. unfold redis_call.
  destruct (redis_up env _); [|constructor].
  destruct (op (redis s)) as [a r]. cbn. constructor; [apply Hev | constructor].
Qed.

Section WorkerEvents.

Variable env : Env.
Variable self : PPEDetector.

Lemma well_formed_process_task (e : entry) (img_name : string)
    (scores : gmap string Q) (item : string) :
  no_slash img_name = true ->
  trace_sat well_formed_event (process_task env self e img_name scores item).
Proof.
  intros Hname. unfold process_task.
  apply trace_sat_bind.
  { intros s. cbn. constructor. }
  intros ts. apply trace_sat_bind.
  { apply trace_sat_redis_call. intros _. cbn. auto. }
  intros _. apply trace_sat_bind.
  { destruct (Py.startswith "no_" _) eqn:E; [|apply trace_sat_ret].
    apply trace_sat_redis_call. intros _. cbn. eauto. }
  intros _. unfold notify.
  destruct (update_callback self) as [returns|]; [|apply trace_sat_ret].
  intros s. destruct (returns _); cbn; repeat constructor.
Qed.

Lemma well_formed_process_entry (e : entry) :
  trace_sat well_formed_event (_process_entry env self e).
Proof.
  unfold _process_entry.
  destruct (negb _); [apply trace_sat_ret|].
  destruct (negb _); [apply trace_sat_ret|].
  destruct (imread env _) as [img|]; [|apply trace_sat_ret].
  apply trace_sat_bind.
  { intros s. cbn. repeat constructor. }
  intros rows. apply trace_sat_bind; [apply trace_sat_lift|].
  intros scores. apply trace_sat_for_each. intros item.
  apply well_formed_process_task, name_no_slash.
Qed.

Lemma well_formed_drain_queue (fuel : nat) :
  trace_sat well_formed_event (drain_queue env self fuel).
Proof.
  induction fuel as [|fuel IH]; cbn [drain_queue]; [apply trace_sat_lift|].
  apply trace_sat_bind; [apply trace_sat_redis_call; intros a; exact I|].
  intros [[|c payload]|]; try apply trace_sat_ret.
  destruct (json_loads env _) as [e|]; [|exact IH].
  apply trace_sat_bind; [apply well_formed_process_entry | intros _; exact IH].
Qed.

Lemma well_formed_scan_person_logs :
  trace_sat well_formed_event (scan_person_logs env self).
Proof.
  unfold scan_person_logs.
  apply trace_sat_bind; [intros s; constructor|]. intros w.
  apply trace_sat_bind; [apply trace_sat_redis_call; intros a; exact I|].
  intros members. apply trace_sat_bind; [apply trace_sat_lift|].
  intros entries. apply trace_sat_for_each. intros e. unfold scan_entry.
  apply trace_sat_bind; [intros s; constructor|]. intros w'.
  apply trace_sat_bind; [intros s; cbn; repeat constructor|]. intros _.
  apply well_formed_process_entry.
Qed.

Lemma well_formed_run (cycles fuel : nat) :
  trace_sat well_formed_event (run env self cycles fuel).
Proof.
  induction cycles as [|n IH]; cbn [run]; [apply trace_sat_ret|].
  apply trace_sat_bind; [|intros _; exact IH].
  unfold cycle. apply trace_sat_bind; [apply well_formed_drain_queue|].
  intros _. apply trace_sat_bind; [apply well_formed_scan_person_logs|].
  intros _ s. cbn. repeat constructor.
Qed.

End WorkerEvents.

(** X3. In any run of the worker, complete or cut short by an exception,
    every ZADD to ["ppe_logs"] scores the record by the record's own [ts]
    and the record's [path] is a bare file name (no directory part), and
    every counter incremented is named ["<status>_count"] for a status
    beginning with ["no_"]. *)
Theorem run_events_well_formed
    (env : Env) (self : PPEDetector) (cycles fuel : nat) (s : state) :
  List.Forall well_formed_event (trace (run env self cycles fuel s)).
Proof. apply well_formed_run. Qed.

(** ** One inference per event, one record and one notification per task *)

Lemma count_events_app (p : event -> bool) (t1 t2 : list event) :
  count_events p (t1 ++ t2) = (count_events p t1 + count_events p t2)%nat.
Proof. unfold count_events. now rewrite List.filter_app, List.length_app. Qed.

Lemma count_events_none (p : event -> bool) (t : list event) :
  List.Forall (fun ev => p ev = false) t -> count_events p t = 0%nat.
Proof.
  intros H. unfold count_events.
  induction H as [|ev t Hev Ht IH]; cbn; [reflexivity|]. now rewrite Hev.
Qed.

Lemma zadd_logs_length (t : list event) :
  length (zadd_logs t) = count_events is_zadd t.
Proof.
  unfold count_events. induction t as [|ev t IH]; [reflexivity|].
  destruct ev; cbn; auto.
Qed.

Section TaskLoop.

Variable env : Env.
Variable self : PPEDetector.

Lemma process_task_ok_trace (e : entry) (img_name : string)
    (scores : gmap string Q) (item : string) (s : state) :
  outcome (process_task env self e img_name scores item s) = Ok tt ->
  trace (process_task env self e img_name scores item s)
  = task_events self
      (record_of self e img_name scores item (time_time env (tick s))).
Proof.
  unfold process_task, task_events, record_of, bind, now, redis_call, notify,
    ret, step.
  cbn [redis tick last_ts l_status l_ts].
  destruct (redis_up env (S (tick s))); cbn; [|discriminate].
  destruct (Py.startswith _ _); cbn.
  - destruct (redis_up env (S (S (tick s)))); cbn; [|discriminate].
    destruct (update_callback self) as [returns|]; cbn; [|reflexivity].
    destruct (returns _); cbn; [reflexivity|discriminate].
  - destruct (update_callback self) as [returns|]; cbn; [|reflexivity].
    destruct (returns _); cbn; [reflexivity|discriminate].
Qed.

Lemma process_task_no_predict (e : entry) (img_name : string)
    (scores : gmap string Q) (item : string) :
  trace_sat (fun ev => is_predict ev = false)
            (process_task env self e img_name scores item).
Proof.
  unfold process_task.
  apply trace_sat_bind; [intros s; constructor|]. intros ts.
  apply trace_sat_bind; [now apply trace_sat_redis_call|]. intros _.
  apply trace_sat_bind.
  { destruct (Py.startswith _ _);
      [now apply trace_sat_redis_call | apply trace_sat_ret]. }
  intros _. unfold notify.
  destruct (update_callback self) as [returns|]; [|apply trace_sat_ret].
  intros s. destruct (returns _); cbn; repeat constructor.
Qed.

Lemma for_each_tasks_counts (e : entry) (img_name : string)
    (scores : gmap string Q) (tasks : list string) :
  forall s,
    outcome (for_each (process_task env self e img_name scores) tasks s)
    = Ok tt ->
    count_events is_zadd
      (trace (for_each (process_task env self e img_name scores) tasks s))
    = length tasks /\
    count_events is_callback
      (trace (for_each (process_task env self e img_name scores) tasks s))
    = match update_callback self with
      | Some _ => length tasks
      | None => 0%nat
      end.
Proof.
  induction tasks as [|item tasks IH]; intros s H.
  - cbn. now destruct (update_callback self).
  - cbn [for_each] in H |- *. apply bind_ok in H as (u & H1 & H2 & Ht).
    rewrite Ht, !count_events_app. destruct u.
    rewrite (process_task_ok_trace _ _ _ _ _ H1).
    destruct (IH _ H2) as [Hz Hc]. rewrite Hz, Hc.
    unfold task_events.
    destruct (Py.startswith _ _); destruct (update_callback self);
      cbn; auto.
Qed.

End TaskLoop.

(** X4. The model is invoked once per event, not once per task: an event
    with a non-empty task list, a path and a loadable image causes exactly
    one [predict] call, however many tasks it lists and whether or not the
    processing of its tasks completes; any other event causes none. *)
Theorem one_inference_per_event
    (env : Env) (self : PPEDetector) (e : entry) (s : state) :
  count_events is_predict (trace (_process_entry env self e s))
  = if Py.truthy_list (resolve_tasks self e)
       && Py.truthy_str (e_path e)
       && match imread env (resolve_path self (default "" (e_path e))) with
          | Some _ => true
          | None => false
          end
    then 1%nat else 0%nat.
Proof.
  unfold _process_entry.
  destruct (Py.truthy_list (resolve_tasks self e)); [|reflexivity].
  destruct (Py.truthy_str (e_path e)); [|reflexivity].
  destruct (imread env _) as [img|]; [|reflexivity].
  cbn [negb andb]. unfold bind at 1. cbn [model_predict].
  match goal with
  | |- context [bind ?m ?f (step s)] =>
      pose proof (trace_sat_bind (fun ev => is_predict ev = false) m f) as H;
      destruct (bind m f (step s)) as [[r s2] t2] eqn:E
  end.
  cbn [trace snd app]. change (EvPredict img :: t2) with ([EvPredict img] ++ t2).
  rewrite count_events_app. cbn.
  rewrite count_events_none; [reflexivity|].
  assert (Hs : trace (r, s2, t2) = t2) by reflexivity.
  rewrite <- Hs, <- E. apply H; [apply trace_sat_lift|].
  intros scores. apply trace_sat_for_each. intros item.
  apply process_task_no_predict.
Qed.

(** X5. When the processing of an event that reaches the Result Sink
    completes, exactly one record has been written per task of the event,
    and the update callback, when one was given, has been called once per
    task (never when none was given). *)
Theorem one_record_and_notification_per_task
    (env : Env) (self : PPEDetector) (e : entry) (s : state)
    (tasks : list string) (img : image) (scores : gmap string Q) :
  resolve_tasks self e = Some tasks ->
  tasks <> [] ->
  Py.truthy_str (e_path e) = true ->
  imread env (resolve_path self (default "" (e_path e))) = Some img ->
  build_scores (names env) (predict env img) ∅ = Ok scores ->
  outcome (_process_entry env self e s) = Ok tt ->
  length (zadd_logs (trace (_process_entry env self e s))) = length tasks /\
  count_events is_callback (trace (_process_entry env self e s))
  = match update_callback self with
    | Some _ => length tasks
    | None => 0%nat
    end.
Proof.
  intros Htasks Hne Hpath Himg Hscores Hok.
  rewrite zadd_logs_length.
  rewrite (process_entry_reaches_sink env self e s tasks img scores) in *
    by assumption.
  cbn [outcome final trace fst snd] in *.
  match goal with
  | |- context [EvPredict img :: ?t] =>
      change (EvPredict img :: t) with ([EvPredict img] ++ t)
  end.
  rewrite !count_events_app.
  destruct (for_each_tasks_counts env self _ _ _ _ _ Hok) as [Hz Hc].
  cbn [trace] in Hz, Hc. rewrite Hz, Hc. cbn. split; reflexivity.
Qed.

Lemma one_record_and_notification_per_task_witness :
  length (zadd_logs (trace (_process_entry Sample.env Sample.detector_cb
                              Sample.helmet_vest Sample.start))) = 2%nat /\
  count_events is_callback
    (trace (_process_entry Sample.env Sample.detector_cb Sample.helmet_vest
              Sample.start)) = 2%nat.
Proof.
  refine (one_record_and_notification_per_task Sample.env Sample.detector_cb
            Sample.helmet_vest Sample.start ["helmet"; "vest"]
            (Image [1; 2; 3]) _ _ _ _ _ _ _);
    first [reflexivity | discriminate].
Defined.

(** X6. An event without a usable image is skipped without a trace: when
    [entry["path"]] is missing or empty, or when [cv2.imread] cannot load
    the resolved file, [_process_entry] returns normally, the state is
    unchanged, and nothing is written, counted, predicted or notified. *)
Theorem unusable_image_skipped
    (env : Env) (self : PPEDetector) (e : entry) (s : state) :
  Py.truthy_str (e_path e) = false \/
  imread env (resolve_path self (default "" (e_path e))) = None ->
  _process_entry env self e s = (Ok tt, s, []).
Proof.
  intros H. unfold _process_entry.
  destruct (negb (Py.truthy_list _)); [reflexivity|].
  destruct H as [H|H]; rewrite H; [reflexivity|].
  destruct (negb (Py.truthy_str _)); reflexivity.
Qed.

Lemma unusable_image_skipped_witness :
  _process_entry Sample.env Sample.detector Sample.no_path Sample.start
  = (Ok tt, Sample.start, []) /\
  _process_entry Sample.env Sample.detector Sample.missing_image Sample.start
  = (Ok tt, Sample.start, []).
Proof.
  split.
  - apply (unusable_image_skipped Sample.env Sample.detector Sample.no_path
             Sample.start).
    left. reflexivity.
  - apply (unusable_image_skipped Sample.env Sample.detector
             Sample.missing_image Sample.start).
    right. reflexivity.
Defined.

(** ** Counters *)

Lemma counters_grow_bind {A B} (m : M A) (f : A -> M B) :
  counters_grow m -> (forall a, counters_grow (f a)) ->
  counters_grow (bind m f).
Proof.
  intros Hm Hf s key. unfold bind. specialize (Hm s key).
  destruct (m s) as [[r s1] t1]. cbn in Hm.
  destruct r as [a| |]; cbn; auto.
  specialize (Hf a s1 key). destruct (f a s1) as [[r2 s2] t2]. cbn in *. lia.
Qed.

Lemma counters_grow_for_each {A} (f : A -> M unit) (l : list A) :
  (forall x, counters_grow (f x)) -> counters_grow (for_each f l).
Proof.
  intros Hf. induction l as [|x l IH]; cbn [for_each].
  - intros s key. cbn. lia.
  - apply counters_grow_bind; auto.
Qed.

Lemma counters_grow_redis_call (env : Env) {A}
    (op : Redis.t -> A * Redis.t) (ev : A -> event) :
  (forall r key, Redis.counter key r <= Redis.counter key (snd (op r))) ->
  counters_grow (redis_call env op ev).
Proof.
  intros Hop s key. unfold redis_call.
  destruct (redis_up env _); [|cbn; lia].
  specialize (Hop (redis s) key). destruct (op (redis s)) as [a r]. exact Hop.
Qed.

Lemma counter_incr (key key' : string) (r : Redis.t) :
  Redis.counter key' (Redis.incr key r)
  = if String.eqb key key' then Redis.counter key' r + 1
    else Redis.counter key' r.
Proof.
  unfold Redis.incr, Redis.counter. cbn.
  destruct (String.eqb key key') eqn:E.
  - apply String.eqb_eq in E. subst. now rewrite lookup_insert_eq.
  - apply String.eqb_neq in E. now rewrite lookup_insert_ne.
Qed.

Section WorkerCounters.

Variable env : Env.
Variable self : PPEDetector.

Lemma counters_grow_process_entry (e : entry) :
  counters_grow (_process_entry env self e).
Proof.
  assert (Hid : forall A (a : A), counters_grow (ret a)).
  { intros A a s key. cbn. lia. }
  unfold _process_entry.
  destruct (negb _); [apply Hid|].
  destruct (negb _); [apply Hid|].
  destruct (imread env _) as [img|]; [|apply Hid].
  apply counters_grow_bind; [intros s key; cbn; lia|]. intros rows.
  apply counters_grow_bind; [intros s key; cbn; lia|]. intros scores.
  apply counters_grow_for_each. intros item. unfold process_task.
  apply counters_grow_bind; [intros s key; cbn; lia|]. intros ts.
  apply counters_grow_bind.
  { apply counters_grow_redis_call. intros r key. cbn. unfold Redis.counter.
    cbn. lia. }
  intros _. apply counters_grow_bind.
  { destruct (Py.startswith _ _); [|apply Hid].
    apply counters_grow_redis_call. intros r key. cbn [snd].
    rewrite counter_incr. destruct (String.eqb _ _); lia. }
  intros _. unfold notify.
  destruct (update_callback self) as [returns|]; [|apply Hid].
  intros s key. destruct (returns _); cbn; lia.
Qed.

Lemma counters_grow_drain_queue (fuel : nat) :
  counters_grow (drain_queue env self fuel).
Proof.
  induction fuel as [|fuel IH]; cbn [drain_queue]; [intros s key; cbn; lia|].
  apply counters_grow_bind.
  { apply counters_grow_redis_call. intros r key. unfold Redis.lpop.
    destruct (Redis.ppe_queue r); cbn; unfold Redis.counter; cbn; lia. }
  intros [[|c payload]|]; try (intros s key; cbn; lia).
  destruct (json_loads env _) as [e|]; [|exact IH].
  apply counters_grow_bind;
    [apply counters_grow_process_entry | intros _; exact IH].
Qed.

Lemma counters_grow_run (cycles fuel : nat) :
  counters_grow (run env self cycles fuel).
Proof.
  induction cycles as [|n IH]; cbn [run]; [intros s key; cbn; lia|].
  apply counters_grow_bind; [|intros _; exact IH].
  unfold cycle. apply counters_grow_bind; [apply counters_grow_drain_queue|].
  intros _. apply counters_grow_bind; [|intros _ s key; cbn; lia].
  unfold scan_person_logs.
  apply counters_grow_bind; [intros s key; cbn; lia|]. intros w.
  apply counters_grow_bind.
  { apply counters_grow_redis_call. intros r key. cbn. lia. }
  intros members. apply counters_grow_bind; [intros s key; cbn; lia|].
  intros entries. apply counters_grow_for_each. intros e. unfold scan_entry.
  apply counters_grow_bind; [intros s key; cbn; lia|]. intros w'.
  apply counters_grow_bind; [intros s key; cbn; lia|]. intros _.
  apply counters_grow_process_entry.
Qed.

End WorkerCounters.

(** X7. The worker only ever increments counters: over any number of
    cycles of [run], from any state, no counter of the store ends lower
    than it began, also when the run is cut short by an exception. *)
Theorem counters_never_decrease
    (env : Env) (self : PPEDetector) (cycles fuel : nat) (s : state)
    (key : string) :
  Redis.counter key (redis s)
  <= Redis.counter key (redis (final (run env self cycles fuel s))).
Proof. apply counters_grow_run. Qed.

(** ** The queue after a drain *)

(** X8. When the drain loop returns normally, the queue holds exactly what
    followed the first empty payload, and nothing when no payload was
    empty: every item before that point has been popped, whether it parsed
    or not. *)
Theorem drain_leaves_queue
    (env : Env) (self : PPEDetector) (fuel : nat) (s : state) :
  outcome (drain_queue env self fuel s) = Ok tt ->
  Redis.ppe_queue (redis (final (drain_queue env self fuel s)))
  = after_first_empty (Redis.ppe_queue (redis s)) /\
  (~ In "" (Redis.ppe_queue (redis s)) ->
   Redis.ppe_queue (redis (final (drain_queue env self fuel s))) = []).
Proof.
  intros Hok.
  assert (Hno : forall q, ~ In "" q -> after_first_empty q = []).
  { induction q as [|x q IH]; intros H; [reflexivity|].
    destruct x as [|c x]; [exfalso; apply H; now left|].
    cbn. apply IH. intros Hin. apply H. now right. }
  assert (Hmain : Redis.ppe_queue (redis (final (drain_queue env self fuel s)))
                  = after_first_empty (Redis.ppe_queue (redis s))).
  { revert s Hok. induction fuel as [|fuel IH]; intros s Hok;
      [discriminate|].
    cbn [drain_queue] in *. unfold bind at 1 in Hok. unfold bind at 1.
    unfold redis_call, Redis.lpop in *.
    destruct (redis_up env (tick s)); [|discriminate].
    destruct (Redis.ppe_queue (redis s)) as [|payload rest] eqn:Hq.
    { cbn. now rewrite Hq. }
    destruct payload as [|c payload]; [reflexivity|].
    cbn [after_first_empty].
    set (s' := MkState (Redis.Mk rest (Redis.person_logs (redis s))
                          (Redis.ppe_logs (redis s))
                          (Redis.counters (redis s)))
                       (S (tick s)) (last_ts s)) in *.
    destruct (json_loads env _) as [e|].
    - unfold bind in *.
      pose proof (keeps_queue_process_entry env self e s') as [Hk _].
      destruct (_process_entry env self e s') as [[r s1] t1]. cbn in Hk.
      destruct r as [u| |]; try discriminate.
      specialize (IH s1).
      destruct (drain_queue env self fuel s1) as [[r2 s2] t2].
      cbn in *. rewrite IH by assumption. now rewrite Hk.
    - specialize (IH s').
      destruct (drain_queue env self fuel s') as [[r2 s2] t2].
      cbn in *. now rewrite IH. }
  split; [exact Hmain|]. intros H. rewrite Hmain. now apply Hno.
Qed.

Lemma drain_leaves_queue_witness :
  Redis.ppe_queue
    (redis (final (drain_queue Sample.env Sample.detector 3
                     Sample.queue_with_malformed)))
  = after_first_empty (Redis.ppe_queue (redis Sample.queue_with_malformed)) /\
  (~ In "" (Redis.ppe_queue (redis Sample.queue_with_malformed)) ->
   Redis.ppe_queue
     (redis (final (drain_queue Sample.env Sample.detector 3
                      Sample.queue_with_malformed))) = []).
Proof.
  apply (drain_leaves_queue Sample.env Sample.detector 3
           Sample.queue_with_malformed).
  reflexivity.
Defined.

(** ** Scans of the legacy log *)

Lemma bind_ok_final {A B} (m : M A) (f : A -> M B) (s : state) (b : B) :
  outcome (bind m f s) = Ok b ->
  exists a,
    outcome (m s) = Ok a /\
    outcome (f a (final (m s))) = Ok b /\
    final (bind m f s) = final (f a (final (m s))).
Proof.
  unfold bind. destruct (m s) as [[r s1] t1]. cbn.
  destruct r as [a| |]; cbn; try discriminate.
  destruct (f a s1) as [[r2 s2] t2] eqn:E. cbn. intros ->.
  exists a. rewrite E. auto.
Qed.

Lemma keeps_person_logs_bind {A B} (m : M A) (f : A -> M B) :
  keeps_person_logs m -> (forall a, keeps_person_logs (f a)) ->
  keeps_person_logs (bind m f).
Proof.
  intros Hm Hf s. unfold bind. specialize (Hm s).
  destruct (m s) as [[r s1] t1]. cbn in Hm.
  destruct r as [a| |]; cbn; auto.
  specialize (Hf a s1). destruct (f a s1) as [[r2 s2] t2]. cbn in *.
  congruence.
Qed.

Lemma keeps_person_logs_for_each {A} (f : A -> M unit) (l : list A) :
  (forall x, keeps_person_logs (f x)) -> keeps_person_logs (for_each f l).
Proof.
  intros Hf. induction l as [|x l IH]; cbn [for_each].
  - intros s. reflexivity.
  - apply keeps_person_logs_bind; auto.
Qed.

Section Scan.

Variable env : Env.
Variable self : PPEDetector.

Lemma keeps_person_logs_process_entry (e : entry) :
  keeps_person_logs (_process_entry env self e).
Proof.
  unfold _process_entry.
  destruct (negb _); [intros s; reflexivity|].
  destruct (negb _); [intros s; reflexivity|].
  destruct (imread env _) as [img|]; [|intros s; reflexivity].
  apply keeps_person_logs_bind; [intros s; reflexivity|]. intros rows.
  apply keeps_person_logs_bind; [intros s; reflexivity|]. intros scores.
  apply keeps_person_logs_for_each. intros item. unfold process_task.
  apply keeps_person_logs_bind; [intros s; reflexivity|]. intros ts.
  apply keeps_person_logs_bind.
  { intros s. unfold redis_call. destruct (redis_up env _); reflexivity. }
  intros _. apply keeps_person_logs_bind.
  { destruct (Py.startswith _ _); intros s; [|reflexivity].
    unfold redis_call. destruct (redis_up env _); reflexivity. }
  intros _ s. unfold notify.
  destruct (update_callback self) as [returns|]; [|reflexivity].
  destruct (returns _); reflexivity.
Qed.

Lemma keeps_person_logs_scan_entry (e : entry) :
  keeps_person_logs (scan_entry env self e).
Proof.
  unfold scan_entry.
  apply keeps_person_logs_bind; [intros s; reflexivity|]. intros w.
  apply keeps_person_logs_bind; [intros s; reflexivity|]. intros _.
  apply keeps_person_logs_process_entry.
Qed.

Lemma scan_entry_last_ts (e : entry) (s : state) :
  last_ts (final (scan_entry env self e s))
  = Z.max (last_ts s) (default 0 (e_ts e)).
Proof.
  unfold scan_entry, bind, get_last_ts, set_last_ts. cbn [last_ts redis tick].
  pose proof (leaves_process_entry env self e
                (MkState (redis s) (tick s)
                   (Z.max (last_ts s) (default 0 (e_ts e))))) as [Hl _].
  destruct (_process_entry env self e _) as [[r s1] t1]. cbn in *. exact Hl.
Qed.

Lemma scan_entries_last_ts (entries : list entry) :
  forall s,
    outcome (for_each (scan_entry env self) entries s) = Ok tt ->
    last_ts (final (for_each (scan_entry env self) entries s))
    = watermark_after (last_ts s) entries.
Proof.
  induction entries as [|e entries IH]; intros s H; [reflexivity|].
  cbn [for_each] in H |- *.
  apply bind_ok_final in H as (u & H1 & H2 & Hf). rewrite Hf.
  rewrite (IH _ H2), scan_entry_last_ts. reflexivity.
Qed.

Lemma scan_entries_person_logs (entries : list entry) (s : state) :
  Redis.person_logs (redis (final (for_each (scan_entry env self) entries s)))
  = Redis.person_logs (redis s).
Proof.
  apply (keeps_person_logs_for_each (scan_entry env self) entries).
  apply keeps_person_logs_scan_entry.
Qed.

(** The scan once Redis has answered: the list comprehension is built
    first, the entries are processed after it. *)
Lemma scan_person_logs_eq (s : state) :
  redis_up env (tick s) = true ->
  scan_person_logs env self s
  = match loads_all env (scan_range (last_ts s) (redis s)) with
    | Ok entries =>
        let out := for_each (scan_entry env self) entries (step s) in
        (outcome out, final out, EvZrangebyscore (last_ts s + 1) :: trace out)
    | Raise x => (Raise x, step s, [EvZrangebyscore (last_ts s + 1)])
    | OutOfFuel => (OutOfFuel, step s, [EvZrangebyscore (last_ts s + 1)])
    end.
Proof.
  intros Hup. unfold scan_person_logs, scan_range.
  unfold bind at 1. cbn [get_last_ts].
  unfold bind at 1. unfold redis_call. rewrite Hup.
  unfold bind at 1. cbn [lift]. fold (step s).
  destruct (loads_all env _) as [entries| |]; try reflexivity.
  destruct (for_each _ _ _) as [[r s1] t1]. reflexivity.
Qed.

Lemma scan_ok_redis_up (s : state) :
  outcome (scan_person_logs env self s) = Ok tt ->
  redis_up env (tick s) = true.
Proof.
  unfold scan_person_logs. unfold bind at 1. cbn [get_last_ts].
  unfold bind at 1. unfold redis_call.
  destruct (redis_up env (tick s)); [reflexivity | discriminate].
Qed.

Lemma loads_all_raise (members : list string) (m : string) :
  In m members -> json_loads env m = None ->
  loads_all env members = Raise JSONDecodeError.
Proof.
  induction members as [|x members IH]; intros Hin Hm; [contradiction|].
  cbn [loads_all].
  destruct (json_loads env x) as [e|] eqn:Ex; [|reflexivity].
  destruct Hin as [->|Hin]; [congruence|].
  now rewrite (IH Hin Hm).
Qed.

Lemma loads_all_ok (members : list string) :
  forall entries,
    loads_all env members = Ok entries ->
    forall m e, In m members -> json_loads env m = Some e -> In e entries.
Proof.
  induction members as [|x members IH]; intros entries H m e Hin Hm;
    [contradiction|].
  cbn [loads_all] in H.
  destruct (json_loads env x) as [ex|] eqn:Ex; [|discriminate].
  destruct (loads_all env members) as [es| |]; try discriminate.
  inversion H; subst. destruct Hin as [->|Hin].
  - left. congruence.
  - right. eapply IH; eauto.
Qed.

End Scan.

Lemma fold_zmax_ge_init (l : list Z) :
  forall w, w <= List.fold_left Z.max l w.
Proof.
  induction l as [|x l IH]; intros w; cbn; [lia|].
  specialize (IH (Z.max w x)). lia.
Qed.

Lemma fold_zmax_upper (l : list Z) :
  forall w x, In x l -> x <= List.fold_left Z.max l w.
Proof.
  induction l as [|y l IH]; intros w x Hin; [contradiction|]. cbn.
  destruct Hin as [->|Hin]; [|now apply IH].
  pose proof (fold_zmax_ge_init l (Z.max w x)). lia.
Qed.

Lemma fold_zmax_stays (l : list Z) :
  forall w, List.Forall (fun x => x <= w) l -> List.fold_left Z.max l w = w.
Proof.
  induction l as [|y l IH]; intros w H; [reflexivity|]. cbn.
  inversion H; subst. rewrite Z.max_l by assumption. now apply IH.
Qed.

(** X9. A member of the legacy log that fails to parse aborts the whole
    scan before any entry is processed: the list comprehension raises
    [JSONDecodeError], the watermark and the store are unchanged, and the
    well-formed entries of the same range are neither processed nor
    skipped. *)
Theorem malformed_legacy_entry_aborts_scan
    (env : Env) (self : PPEDetector) (s : state) (m : string) :
  redis_up env (tick s) = true ->
  In m (scan_range (last_ts s) (redis s)) ->
  json_loads env m = None ->
  scan_person_logs env self s
  = (Raise JSONDecodeError, MkState (redis s) (S (tick s)) (last_ts s),
     [EvZrangebyscore (last_ts s + 1)]).
Proof.
  intros Hup Hin Hm.
  rewrite (scan_person_logs_eq env self s Hup).
  now rewrite (loads_all_raise env _ m Hin Hm).
Qed.

Lemma malformed_legacy_entry_aborts_scan_witness :
  scan_person_logs Sample.env Sample.detector Sample.legacy_with_malformed
  = (Raise JSONDecodeError,
     MkState (redis Sample.legacy_with_malformed) 1 0,
     [EvZrangebyscore 1]).
Proof.
  apply (malformed_legacy_entry_aborts_scan Sample.env Sample.detector
           Sample.legacy_with_malformed "{oops").
  - reflexivity.
  - vm_compute. right. left. reflexivity.
  - reflexivity.
Defined.

(** X10. A scan that completes leaves the watermark at the maximum of its
    previous value and the [ts] fields (0 when absent) of the entries it
    read, and leaves ["person_logs"] as it was. *)
Theorem completed_scan_watermark
    (env : Env) (self : PPEDetector) (s : state) (entries : list entry) :
  loads_all env (scan_range (last_ts s) (redis s)) = Ok entries ->
  outcome (scan_person_logs env self s) = Ok tt ->
  last_ts (final (scan_person_logs env self s))
  = watermark_after (last_ts s) entries /\
  Redis.person_logs (redis (final (scan_person_logs env self s)))
  = Redis.person_logs (redis s).
Proof.
  intros Hload Hok.
  pose proof (scan_ok_redis_up env self s Hok) as Hup.
  rewrite (scan_person_logs_eq env self s Hup) in *. rewrite Hload in *.
  cbn [outcome final trace fst snd] in *. split.
  - pose proof (scan_entries_last_ts env self entries (step s) Hok) as H.
    cbn [final] in H. now rewrite H.
  - pose proof (scan_entries_person_logs env self entries (step s)) as H.
    cbn [final] in H. now rewrite H.
Qed.

Lemma completed_scan_watermark_witness :
  last_ts (final (scan_person_logs Sample.env Sample.detector Sample.legacy_one))
  = watermark_after 0 [Sample.helmet_vest] /\
  Redis.person_logs
    (redis (final (scan_person_logs Sample.env Sample.detector
                     Sample.legacy_one)))
  = Redis.person_logs (redis Sample.legacy_one).
Proof.
  apply (completed_scan_watermark Sample.env Sample.detector Sample.legacy_one
           [Sample.helmet_vest]);
    reflexivity.
Defined.

Lemma filter_nil {A} (f : A -> bool) (l : list A) :
  (forall x, In x l -> f x = false) -> List.filter f l = [].
Proof.
  induction l as [|x l IH]; intros H; [reflexivity|]. cbn.
  rewrite (H x) by now left. apply IH. intros y Hy. apply H. now right.
Qed.

Lemma scan_completed
    (env : Env) (self : PPEDetector) (s : state) :
  outcome (scan_person_logs env self s) = Ok tt ->
  exists entries,
    loads_all env (scan_range (last_ts s) (redis s)) = Ok entries /\
    last_ts (final (scan_person_logs env self s))
    = watermark_after (last_ts s) entries /\
    Redis.person_logs (redis (final (scan_person_logs env self s)))
    = Redis.person_logs (redis s).
Proof.
  intros Hok.
  pose proof (scan_ok_redis_up env self s Hok) as Hup.
  rewrite (scan_person_logs_eq env self s Hup) in *.
  destruct (loads_all env _) as [entries| |]; try discriminate.
  exists entries. cbn [outcome final trace fst snd] in *.
  split; [reflexivity|]. split.
  - pose proof (scan_entries_last_ts env self entries (step s) Hok) as H.
    cbn [final] in H. now rewrite H.
  - pose proof (scan_entries_person_logs env self entries (step s)) as H.
    cbn [final] in H. now rewrite H.
Qed.

(** X11. No entry is read twice when its [ts] field is its score: after a
    scan that completes over a legacy log whose entries above the
    watermark each carry their score as [ts], the range of the next scan
    is empty until new entries arrive. *)
Theorem completed_scan_not_repeated
    (env : Env) (self : PPEDetector) (s : state) :
  (forall m sc,
      In (m, sc) (Redis.person_logs (redis s)) -> last_ts s < sc ->
      exists e, json_loads env m = Some e /\ e_ts e = Some sc) ->
  outcome (scan_person_logs env self s) = Ok tt ->
  scan_range (last_ts (final (scan_person_logs env self s)))
             (redis (final (scan_person_logs env self s))) = [].
Proof.
  intros Hts Hok.
  destruct (scan_completed env self s Hok) as (entries & Hload & Hw & Hp).
  unfold scan_range at 1. unfold Redis.zrangebyscore_from.
  rewrite Hp, Hw, filter_nil; [reflexivity|].
  intros [m sc] Hin. cbn [snd]. apply Z.leb_gt.
  assert (sc <= watermark_after (last_ts s) entries); [|lia].
  unfold watermark_after.
  destruct (Z_le_gt_dec sc (last_ts s)) as [Hle|Hgt].
  - pose proof (fold_zmax_ge_init
                  (List.map (fun e => default 0 (e_ts e)) entries) (last_ts s)).
    lia.
  - destruct (Hts m sc Hin) as (e & He & Hsc); [lia|].
    apply fold_zmax_upper.
    assert (Hm : In m (scan_range (last_ts s) (redis s))).
    { unfold scan_range, Redis.zrangebyscore_from.
      apply (List.in_map fst _ (m, sc)). apply List.filter_In.
      split; [assumption|]. cbn. apply Z.leb_le. lia. }
    pose proof (loads_all_ok env _ entries Hload m e Hm He) as Hin_e.
    apply (List.in_map (fun e => default 0 (e_ts e))) in Hin_e.
    rewrite Hsc in Hin_e. exact Hin_e.
Qed.

Lemma completed_scan_not_repeated_witness :
  scan_range
    (last_ts (final (scan_person_logs Sample.env Sample.detector
                       Sample.legacy_one)))
    (redis (final (scan_person_logs Sample.env Sample.detector
                     Sample.legacy_one))) = [].
Proof.
  apply (completed_scan_not_repeated Sample.env Sample.detector
           Sample.legacy_one).
  - intros m sc [H|[]] _. inversion H; subst.
    exists Sample.helmet_vest. split; reflexivity.
  - reflexivity.
Defined.

(** X12. Entries whose [ts] field does not exceed the watermark (an entry
    without ["ts"] counts as 0) do not advance it: after a scan that
    completes over such entries the next scan reads the very same range,
    so each of them is processed again in every cycle. *)
Theorem stale_entries_rescanned
    (env : Env) (self : PPEDetector) (s : state) (entries : list entry) :
  loads_all env (scan_range (last_ts s) (redis s)) = Ok entries ->
  List.Forall (fun e => default 0 (e_ts e) <= last_ts s) entries ->
  outcome (scan_person_logs env self s) = Ok tt ->
  last_ts (final (scan_person_logs env self s)) = last_ts s /\
  scan_range (last_ts (final (scan_person_logs env self s)))
             (redis (final (scan_person_logs env self s)))
  = scan_range (last_ts s) (redis s).
Proof.
  intros Hload Hstale Hok.
  destruct (scan_completed env self s Hok) as (entries' & Hload' & Hw & Hp).
  assert (entries' = entries) as -> by congruence.
  assert (Hsame : last_ts (final (scan_person_logs env self s)) = last_ts s).
  { rewrite Hw. unfold watermark_after. apply fold_zmax_stays.
    apply List.Forall_map. exact Hstale. }
  split; [exact Hsame|].
  unfold scan_range. now rewrite Hp, Hsame.
Qed.

Lemma stale_entries_rescanned_witness :
  last_ts (final (scan_person_logs Sample.env2 Sample.detector
                    Sample.legacy_no_ts)) = 0 /\
  scan_range
    (last_ts (final (scan_person_logs Sample.env2 Sample.detector
                       Sample.legacy_no_ts)))
    (redis (final (scan_person_logs Sample.env2 Sample.detector
                     Sample.legacy_no_ts)))
  = [Sample.payload_no_ts].
Proof.
  apply (stale_entries_rescanned Sample.env2 Sample.detector
           Sample.legacy_no_ts [Sample.helmet_no_ts]).
  - reflexivity.
  - repeat constructor. cbn. lia.
  - reflexivity.
Defined.

(** ** Cycles compose; an exception ends the worker *)

Lemma bind_assoc {A B C} (m : M A) (f : A -> M B) (g : B -> M C) (s : state) :
  bind (bind m f) g s = bind m (fun a => bind (f a) g) s.
Proof.
  unfold bind. destruct (m s) as [[r s1] t1].
  destruct r as [a| |]; try reflexivity.
  destruct (f a s1) as [[r2 s2] t2].
  destruct r2 as [b| |]; try reflexivity.
  destruct (g b s2) as [[r3 s3] t3]. now rewrite List.app_assoc.
Qed.

Lemma bind_ext {A B} (m : M A) (f g : A -> M B) (s : state) :
  (forall a s', f a s' = g a s') -> bind m f s = bind m g s.
Proof.
  intros H. unfold bind. destruct (m s) as [[r s1] t1].
  destruct r as [a| |]; try reflexivity. now rewrite H.
Qed.

Lemma bind_ret_l {A B} (a : A) (f : A -> M B) (s : state) :
  bind (ret a) f s = f a s.
Proof. unfold bind, ret. now destruct (f a s) as [[r s1] t1]. Qed.

Lemma run_plus (env : Env) (self : PPEDetector) (a b fuel : nat) :
  forall s,
    run env self (a + b) fuel s
    = bind (run env self a fuel) (fun _ => run env self b fuel) s.
Proof.
  induction a as [|a IH]; intros s; cbn [Nat.add run].
  - now rewrite bind_ret_l.
  - rewrite bind_assoc. apply bind_ext. intros _ s'. apply IH.
Qed.

(** X13. Iterations of [while self.running] compose, and nothing in [run]
    catches an exception: when the first [a] cycles complete and the next
    one raises, [run] ends there with that exception, in the state and
    with the trace reached at the failure, however many more cycles
    [self.running] would have allowed. *)
Theorem run_ends_at_first_exception
    (env : Env) (self : PPEDetector) (a b fuel : nat)
    (s s1 s2 : state) (t1 t2 : list event) (err : exn) :
  run env self a fuel s = (Ok tt, s1, t1) ->
  cycle env self fuel s1 = (Raise err, s2, t2) ->
  run env self (a + S b) fuel s = (Raise err, s2, t1 ++ t2).
Proof.
  intros Ha Hc. rewrite run_plus. unfold bind at 1. rewrite Ha.
  cbn [run]. unfold bind at 1. now rewrite Hc.
Qed.

Lemma run_ends_at_first_exception_witness :
  run Sample.env_blip Sample.detector (0 + 3) 4
      (MkState Sample.empty_redis 1 0)
  = (Raise ConnectionError, MkState Sample.empty_redis 3 0,
     [] ++ [EvLpop None]).
Proof.
  apply (run_ends_at_first_exception Sample.env_blip Sample.detector 0 2 4
           (MkState Sample.empty_redis 1 0) (MkState Sample.empty_redis 1 0));
    reflexivity.
Defined.

(** * Further properties of the dashboard routes *)

(** ** The two relays forward the same messages *)

Lemma last_cons_default {A} (a d : A) (l : list A) :
  List.last (a :: l) d = List.last l a.
Proof.
  revert a d. induction l as [|b l IH]; intros a d; [reflexivity|].
  change (List.last (a :: b :: l) d) with (List.last (b :: l) d).
  now rewrite (IH b d), (IH b a).
Qed.

Lemma sse_forward_cursor (messages : list Dashboard.message) :
  forall last_id,
    fst (Dashboard.sse_forward messages last_id)
    = cursor_after messages last_id.
Proof.
  induction messages as [|[sid f] rest IH]; intros last_id; [reflexivity|].
  cbn [Dashboard.sse_forward]. specialize (IH (Py.decode_if_bytes sid)).
  unfold cursor_after in *. cbn [List.map fst]. rewrite last_cons_default.
  destruct (Dashboard.sse_forward rest _) as [l out]. cbn [fst] in IH.
  destruct (Dashboard.data_of f) as [d|]; [|exact IH].
  destruct (Py.truthy_text (Some d)); exact IH.
Qed.

Section RelayAgreement.

Variable env : Dashboard.Env.
Hypothesis connected : forall n, Dashboard.ws_up env n = true.

Lemma ws_forward_connected (messages : list Dashboard.message) :
  forall last_id n,
    exists n' out,
      Dashboard.ws_forward env messages last_id n
      = (true, fst (Dashboard.sse_forward messages last_id), n', out) /\
      snd (Dashboard.sse_forward messages last_id) = List.map sse_wrap out.
Proof.
  induction messages as [|[sid f] rest IH]; intros last_id n.
  - exists n, []. split; reflexivity.
  - cbn [Dashboard.ws_forward Dashboard.sse_forward].
    destruct (Dashboard.data_of f) as [d|].
    + destruct (Py.truthy_text (Some d)).
      * rewrite connected.
        destruct (IH (Py.decode_if_bytes sid) (S n)) as (n' & out & Hw & Hs).
        rewrite Hw.
        destruct (Dashboard.sse_forward rest _) as [l souts].
        cbn [fst snd] in *. exists n', (Dashboard.Text (Py.decode_if_bytes d) :: out).
        split; [reflexivity|]. cbn [List.map sse_wrap]. now rewrite Hs.
      * destruct (IH (Py.decode_if_bytes sid) n) as (n' & out & Hw & Hs).
        rewrite Hw. destruct (Dashboard.sse_forward rest _) as [l souts].
        cbn [fst snd] in *. exists n', out. auto.
    + destruct (IH (Py.decode_if_bytes sid) n) as (n' & out & Hw & Hs).
      rewrite Hw. destruct (Dashboard.sse_forward rest _) as [l souts].
      cbn [fst snd] in *. exists n', out. auto.
Qed.

Lemma ws_tail_connected (fuel : nat) :
  forall last_id k n,
    Dashboard.event_gen env fuel last_id k
    = List.map sse_wrap (snd (Dashboard.ws_tail env fuel last_id k n)).
Proof.
  induction fuel as [|fuel IH]; intros last_id k n; [reflexivity|].
  cbn [Dashboard.event_gen Dashboard.ws_tail].
  destruct (Dashboard.xread env last_id k) as [|[name messages] others];
    [apply IH|].
  destruct (ws_forward_connected messages last_id n) as (n' & out & Hw & Hs).
  rewrite Hw.
  destruct (Dashboard.sse_forward messages last_id) as [l souts].
  cbn [fst snd] in *. rewrite (IH l (S k) n').
  destruct (Dashboard.ws_tail env fuel l (S k) n') as [r out'].
  cbn [snd]. now rewrite List.map_app, Hs.
Qed.

End RelayAgreement.

(** X14. As long as the websocket stays connected, the two relay endpoints
    forward the same stream messages in the same order: what [/sse/stats]
    yields is, frame for frame, the SSE framing ["data: ...\n\n"] of the
    text frames [/ws/stats] sends after its snapshot. *)
Theorem relays_forward_same_messages
    (env : Dashboard.Env) (fuel : nat) (live : Redis.t) :
  (forall n, Dashboard.ws_up env n = true) ->
  exists out,
    snd (Dashboard.ws_stats env fuel live)
    = Dashboard.Snapshot (Dashboard.gather_stats env live) :: out /\
    Dashboard.sse_stats env fuel = List.map sse_wrap out.
Proof.
  intros Hup. unfold Dashboard.ws_stats, Dashboard.sse_stats. rewrite Hup.
  rewrite (ws_tail_connected env Hup fuel "$" 0%nat 1%nat).
  destruct (Dashboard.ws_tail env fuel "$" 0%nat 1%nat) as [r out].
  exists out. split; reflexivity.
Qed.

Lemma relays_forward_same_messages_witness :
  exists out,
    snd (Dashboard.ws_stats Sample.dash_env 3 Sample.empty_redis)
    = Dashboard.Snapshot (Dashboard.gather_stats Sample.dash_env
                            Sample.empty_redis) :: out /\
    Dashboard.sse_stats Sample.dash_env 3 = List.map sse_wrap out.
Proof.
  apply (relays_forward_same_messages Sample.dash_env 3 Sample.empty_redis).
  intros n. reflexivity.
Defined.

(** X15. After a batch of stream messages the cursor of a subscriber is
    the id of the last message of the batch, whether or not the messages
    carried data, and it is unchanged by an empty batch; the next read of
    [/sse/stats] starts from that cursor. *)
Theorem cursor_advances_to_last_message
    (env : Dashboard.Env) (fuel : nat) (last_id : string) (k : nat)
    (name : string) (messages : list Dashboard.message)
    (others : list (string * list Dashboard.message)) :
  Dashboard.xread env last_id k = (name, messages) :: others ->
  fst (Dashboard.sse_forward messages last_id)
  = cursor_after messages last_id /\
  Dashboard.event_gen env (S fuel) last_id k
  = snd (Dashboard.sse_forward messages last_id)
    ++ Dashboard.event_gen env fuel (cursor_after messages last_id) (S k).
Proof.
  intros Hread. split; [apply sse_forward_cursor|].
  cbn [Dashboard.event_gen]. rewrite Hread.
  rewrite <- sse_forward_cursor.
  destruct (Dashboard.sse_forward messages last_id) as [l out]. reflexivity.
Qed.

Lemma cursor_advances_to_last_message_witness :
  fst (Dashboard.sse_forward [Sample.msg1] "$") = "1-0" /\
  Dashboard.event_gen Sample.dash_env 2 "$" 0
  = snd (Dashboard.sse_forward [Sample.msg1] "$")
    ++ Dashboard.event_gen Sample.dash_env 1 "1-0" 1.
Proof.
  apply (cursor_advances_to_last_message Sample.dash_env 1 "$" 0
           "people_counter" [Sample.msg1] []).
  reflexivity.
Defined.

(** ** Disconnection *)



(** ** What [latest_images] returns *)

Lemma selected_images_cons (env : Dashboard.Env) (status : string)
    (item : string) (rest : list string) (e : Dashboard.log_entry) :
  Dashboard.loads_log env item = Some e ->
  selected_images env status (item :: rest)
  = if Dashboard.wanted status e
    then image_of e :: selected_images env status rest
    else selected_images env status rest.
Proof.
  intros H. unfold selected_images, parsed. cbn [omap list_omap].
  rewrite H. cbn [List.filter].
  destruct (Dashboard.wanted status e); reflexivity.
Qed.

Lemma image_limit_pos (count : Z) : (1 <= image_limit count)%nat.
Proof. unfold image_limit. lia. Qed.

Lemma collect_app (env : Dashboard.Env) (status : string) (count : Z)
    (tail : list string) (pre : list string) :
  forall imgs,
    forallb (parses env) pre = true ->
    (length imgs < image_limit count)%nat ->
    Dashboard.collect env status count (pre ++ tail) imgs
    = if (image_limit count - length imgs
          <=? length (selected_images env status pre))%nat
      then Ok (imgs ++ List.firstn (image_limit count - length imgs)
                         (selected_images env status pre))
      else Dashboard.collect env status count tail
             (imgs ++ selected_images env status pre).
Proof.
  induction pre as [|item pre IH]; intros imgs Hparse Hlen.
  - cbn [app selected_images parsed omap list_omap List.filter List.map length].
    destruct (_ <=? 0)%nat eqn:E; [apply Nat.leb_le in E; lia|].
    now rewrite List.app_nil_r.
  - cbn [forallb] in Hparse. apply andb_prop in Hparse as [Hitem Hpre].
    unfold parses in Hitem.
    destruct (Dashboard.loads_log env item) as [e|] eqn:He; [|discriminate].
    rewrite (selected_images_cons env status item pre e He).
    cbn [app Dashboard.collect]. rewrite He.
    destruct (Dashboard.wanted status e); [|now apply IH].
    fold (image_of e).
    destruct (Z.of_nat (length (imgs ++ [image_of e])) >=? count) eqn:E.
    + rewrite Z.geb_leb in E. apply Z.leb_le in E.
      rewrite List.length_app in E. cbn [length] in E.
      assert (Hone : (image_limit count - length imgs = 1)%nat).
      { unfold image_limit in *. lia. }
      rewrite Hone. cbn [length Nat.leb List.firstn]. reflexivity.
    + rewrite Z.geb_leb in E. apply Z.leb_gt in E.
      rewrite List.length_app in E. cbn [length] in E.
      assert (Hlen' : (length (imgs ++ [image_of e]) < image_limit count)%nat).
      { rewrite List.length_app. cbn [length]. unfold image_limit. lia. }
      rewrite (IH _ Hpre Hlen'). rewrite List.length_app. cbn [length].
      replace (image_limit count - length imgs)%nat
        with (S (image_limit count - (length imgs + 1)))%nat by lia.
      cbn [Nat.leb List.firstn]. rewrite <- !List.app_assoc. reflexivity.
Qed.

(** X17. When the members of the window parse, [latest_images] returns the
    images of the entries with the requested status and a non-empty path,
    most recent first, cut at [count]; and cut at one image when [count]
    is zero or negative, since the length is only tested after an image
    has been appended. *)
Theorem latest_images_most_recent_first
    (env : Dashboard.Env) (status : string) (count : Z) (r : Redis.t) :
  forallb (parses env) (Redis.zrevrange_to 1000 (Redis.ppe_logs r)) = true ->
  Dashboard.latest_images env status count r
  = Ok (List.firstn (image_limit count)
          (selected_images env status
             (Redis.zrevrange_to 1000 (Redis.ppe_logs r)))).
Proof.
  intros Hparse. unfold Dashboard.latest_images.
  set (window := Redis.zrevrange_to 1000 (Redis.ppe_logs r)) in *.
  pose proof (collect_app env status count [] window [] Hparse
                (image_limit_pos count)) as H.
  rewrite List.app_nil_r in H. rewrite H. clear H.
  cbn [length app Dashboard.collect]. rewrite Nat.sub_0_r.
  destruct (_ <=? _)%nat eqn:E; [reflexivity|].
  apply Nat.leb_gt in E. rewrite List.firstn_all2 by lia. reflexivity.
Qed.

Lemma latest_images_most_recent_first_witness :
  Dashboard.latest_images Sample.dash_env "helmet" 0 Sample.deep_log
  = Ok ["/snapshots/n.jpg"].
Proof.
  rewrite (latest_images_most_recent_first Sample.dash_env "helmet" 0
             Sample.deep_log);
    vm_compute; reflexivity.
Defined.

(** X18. A member of the window that fails to parse makes [latest_images]
    raise exactly when fewer than [count] selected entries precede it;
    once [count] images are collected the loop has stopped, and whatever
    follows in the window, malformed or not, is never parsed. *)
Theorem malformed_member_in_window
    (env : Dashboard.Env) (status : string) (count : Z) (r : Redis.t)
    (pre : list string) (m : string) (rest : list string) :
  Redis.zrevrange_to 1000 (Redis.ppe_logs r) = pre ++ m :: rest ->
  forallb (parses env) pre = true ->
  Dashboard.loads_log env m = None ->
  Dashboard.latest_images env status count r
  = if (image_limit count <=? length (selected_images env status pre))%nat
    then Ok (List.firstn (image_limit count) (selected_images env status pre))
    else Raise JSONDecodeError.
Proof.
  intros Hwin Hparse Hm. unfold Dashboard.latest_images. rewrite Hwin.
  rewrite (collect_app env status count (m :: rest) pre [] Hparse)
    by apply image_limit_pos.
  cbn [length app]. rewrite Nat.sub_0_r.
  destruct (_ <=? _)%nat; [reflexivity|].
  cbn [Dashboard.collect]. now rewrite Hm.
Qed.

Lemma malformed_member_in_window_witness :
  Dashboard.latest_images Sample.dash_env_strict "helmet" 2 Sample.log_with_bad
  = Raise JSONDecodeError /\
  Dashboard.latest_images Sample.dash_env_strict "helmet" 1 Sample.log_with_bad
  = Ok ["/snapshots/n.jpg"].
Proof.
  split.
  - rewrite (malformed_member_in_window Sample.dash_env_strict "helmet" 2
               Sample.log_with_bad ["n0"] "bad" ["old"]);
      reflexivity.
  - rewrite (malformed_member_in_window Sample.dash_env_strict "helmet" 1
               Sample.log_with_bad ["n0"] "bad" ["old"]);
      reflexivity.
Defined.

Lemma collect_extends (env : Dashboard.Env) (status : string) (count : Z)
    (entries : list string) :
  forall imgs,
    match Dashboard.collect env status count entries imgs with
    | Ok res =>
        exists extra, res = imgs ++ extra /\ List.Forall snapshot_url extra
    | Raise e => e = JSONDecodeError
    | OutOfFuel => False
    end.
Proof.
  induction entries as [|item rest IH]; intros imgs; cbn [Dashboard.collect].
  - exists []. split; [now rewrite List.app_nil_r | constructor].
  - destruct (Dashboard.loads_log env item) as [e|]; [|reflexivity].
    destruct (Dashboard.wanted status e); [|apply IH].
    assert (Hurl : snapshot_url
                     (String.append "/snapshots/"
                        (PathLib.basename (default "" (Dashboard.le_path e))))).
    { eexists. split; [reflexivity | apply basename_no_slash]. }
    destruct (_ >=? count).
    + eexists. split; [reflexivity|]. constructor; [exact Hurl | constructor].
    + specialize (IH (imgs ++ [String.append "/snapshots/"
                                 (PathLib.basename
                                    (default "" (Dashboard.le_path e)))])).
      destruct (Dashboard.collect env status count rest _) as [res|x|];
        try exact IH.
      destruct IH as (extra & -> & Hextra).
      eexists. split; [now rewrite <- List.app_assoc|].
      constructor; assumption.
Qed.


(** ** From the worker to the dashboard *)

Lemma zinsert_above (m : string) (score : Z) (l : Redis.zset) :
  (forall y, In y l -> snd y < score) ->
  Redis.zinsert (m, score) l = l ++ [(m, score)].
Proof.
  induction l as [|y l IH]; intros H; [reflexivity|].
  cbn [Redis.zinsert app]. unfold Redis.zle. cbn [fst snd].
  pose proof (H y (or_introl eq_refl)) as Hy.
  replace (score <? snd y) with false by (symmetry; apply Z.ltb_ge; lia).
  replace (score =? snd y) with false by (symmetry; apply Z.eqb_neq; lia).
  cbn [orb andb]. rewrite IH; [reflexivity|].
  intros z Hz. apply H. now right.
Qed.

Lemma zrevrange_newest (stop : nat) (m : string) (score : Z) (l : Redis.zset) :
  (forall y, In y l -> snd y < score) ->
  exists older,
    Redis.zrevrange_to stop (Redis.zadd_set m score l) = m :: older.
Proof.
  intros H. unfold Redis.zadd_set, Redis.zrevrange_to.
  rewrite zinsert_above.
  - rewrite List.rev_app_distr. cbn. eauto.
  - intros y Hy. apply List.filter_In in Hy as [Hy _]. now apply H.
Qed.

(** X20. A record the worker has just stored with a timestamp above every
    score of ["ppe_logs"] is the first image [latest_images] returns for
    its status, under the name the worker recorded, provided the
    dashboard's [json.loads] reads back the status and the path that the
    worker's [json.dumps] wrote; the call can only fail on an older
    malformed member, and only when more than one image is asked for. *)
Theorem fresh_record_is_latest_image
    (wenv : Env) (denv : Dashboard.Env) (log : ppe_log) (count : Z)
    (r : Redis.t) :
  (forall y, In y (Redis.ppe_logs r) -> snd y < l_ts log) ->
  Dashboard.loads_log denv (json_dumps wenv log)
  = Some (Dashboard.LogEntry (Some (l_status log)) (Some (l_path log))) ->
  l_path log <> "" ->
  no_slash (l_path log) = true ->
  match Dashboard.latest_images denv (l_status log) count
          (Redis.zadd (json_dumps wenv log) (l_ts log) r) with
  | Ok imgs =>
      List.head imgs = Some (String.append "/snapshots/" (l_path log))
  | Raise _ => 1 < count
  | OutOfFuel => False
  end.
Proof.
  intros Hnew Hloads Hpath Hbare.
  unfold Dashboard.latest_images, Redis.zadd. cbn [Redis.ppe_logs].
  destruct (zrevrange_newest 1000 (json_dumps wenv log) (l_ts log)
              (Redis.ppe_logs r) Hnew) as (older & ->).
  cbn [Dashboard.collect]. rewrite Hloads.
  unfold Dashboard.wanted.
  cbn [Dashboard.le_status Dashboard.le_path default from_option id].
  rewrite String.eqb_refl.
  assert (Htruthy : Py.truthy_str (Some (l_path log)) = true).
  { destruct (l_path log); [congruence | reflexivity]. }
  rewrite Htruthy. cbn [andb app length]. rewrite (basename_bare _ Hbare).
  destruct (Z.of_nat 1 >=? count) eqn:E; [reflexivity|].
  rewrite Z.geb_leb in E. apply Z.leb_gt in E.
  pose proof (collect_extends denv (l_status log) count older
                [String.append "/snapshots/" (l_path log)]) as H.
  destruct (Dashboard.collect denv (l_status log) count older _) as [res|x|].
  - destruct H as (extra & -> & _). reflexivity.
  - lia.
  - exact H.
Qed.

Lemma fresh_record_is_latest_image_witness :
  match Dashboard.latest_images Sample.dash_env_dumps
          (l_status Sample.violation) 5
          (Redis.zadd (json_dumps Sample.env Sample.violation)
             (l_ts Sample.violation) Sample.log_with_bad) with
  | Ok imgs =>
      List.head imgs
      = Some (String.append "/snapshots/" (l_path Sample.violation))
  | Raise _ => 1 < 5
  | OutOfFuel => False
  end.
Proof.
  apply (fresh_record_is_latest_image Sample.env Sample.dash_env_dumps
           Sample.violation 5 Sample.log_with_bad).
  - intros y Hy. cbn in Hy.
    repeat (destruct Hy as [<-|Hy]; [reflexivity|]). contradiction.
  - reflexivity.
  - discriminate.
  - reflexivity.
Defined.

(** ** Anomaly counts of the index page *)

Lemma append_length (a b : string) :
  String.length (String.append a b) = (String.length a + String.length b)%nat.
Proof.
  induction a as [|x a IH]; [reflexivity|].
  change (String.append (String x a) b) with (String x (String.append a b)).
  cbn [String.length]. now rewrite IH.
Qed.

Lemma append_suffix_inj (c : string) :
  forall a b, String.append a c = String.append b c -> a = b.
Proof.
  induction a as [|x a IH]; intros b H.
  - destruct b as [|y b]; [reflexivity|].
    apply (f_equal String.length) in H. rewrite !append_length in H.
    cbn [String.length] in H. lia.
  - destruct b as [|y b].
    + apply (f_equal String.length) in H. rewrite !append_length in H.
      cbn [String.length] in H. lia.
    + change (String x (String.append a c) = String y (String.append b c)) in H.
      injection H as -> H. now rewrite (IH b H).
Qed.

Lemma anomaly_counts_fold (r : Redis.t) (items : list string) :
  forall (d : gmap string Z) (item : string),
    List.fold_left
      (fun d item => <[item := Redis.counter (String.append item "_count") r]> d)
      items d !! item
    = if existsb (String.eqb item) items
      then Some (Redis.counter (String.append item "_count") r)
      else d !! item.
Proof.
  induction items as [|x items IH]; intros d item; [reflexivity|].
  cbn [List.fold_left existsb]. rewrite IH.
  destruct (existsb (String.eqb item) items);
    [now rewrite orb_true_r|]. rewrite orb_false_r.
  destruct (String.eqb item x) eqn:E.
  - apply String.eqb_eq in E. subst. now rewrite lookup_insert_eq.
  - apply String.eqb_neq in E. rewrite lookup_insert_ne; congruence.
Qed.

Lemma anomaly_counts_lookup (items : list string) (r : Redis.t) (item : string) :
  Dashboard.anomaly_counts items r !! item
  = if existsb (String.eqb item) items
    then Some (Redis.counter (String.append item "_count") r)
    else None.
Proof.
  unfold Dashboard.anomaly_counts. rewrite anomaly_counts_fold.
  now rewrite lookup_empty.
Qed.

Lemma process_task_counters
    (env : Env) (self : PPEDetector) (e : entry) (img_name : string)
    (scores : gmap string Q) (item : string) (s : state) (key : string) :
  redis_up env (S (tick s)) = true ->
  redis_up env (S (S (tick s))) = true ->
  Redis.counter key
    (redis (final (process_task env self e img_name scores item s)))
  = Redis.counter key (redis s)
    + if Py.startswith "no_" (status_of self item (scores_get scores item))
         && String.eqb
              (String.append (status_of self item (scores_get scores item))
                 "_count") key
      then 1 else 0.
Proof.
  intros Hup1 Hup2.
  unfold process_task, bind, now, redis_call, notify, ret, step.
  cbn [redis tick last_ts]. rewrite Hup1. cbn [redis tick last_ts].
  destruct (Py.startswith "no_" _).
  - cbn [redis tick last_ts]. rewrite Hup2.
    destruct (update_callback self) as [returns|]; [destruct (returns _)|];
      cbn [final fst snd redis andb];
      rewrite counter_incr; unfold Redis.zadd, Redis.counter;
      cbn [Redis.counters]; destruct (String.eqb _ key); lia.
  - destruct (update_callback self) as [returns|]; [destruct (returns _)|];
      cbn [final fst snd redis andb]; unfold Redis.zadd, Redis.counter;
      cbn [Redis.counters]; lia.
Qed.

(** X21. A violation recorded by the worker shows on the index page: after
    a task whose confidence is below the threshold has been processed
    (Redis reachable for its two calls), the anomaly count the dashboard
    computes for ["no_<task>"] is one more than the counter held before,
    and the count of every other anomaly item is what it was. *)
Theorem dashboard_counts_violation
    (env : Env) (self : PPEDetector) (e : entry) (img_name : string)
    (scores : gmap string Q) (task : string) (s : state)
    (anomaly_items : list string) :
  (scores_get scores task < threshold self)%Q ->
  redis_up env (S (tick s)) = true ->
  redis_up env (S (S (tick s))) = true ->
  In (String.append "no_" task) anomaly_items ->
  Dashboard.anomaly_counts anomaly_items
    (redis (final (process_task env self e img_name scores task s)))
  !! String.append "no_" task
  = Some (Redis.counter (String.append (String.append "no_" task) "_count")
            (redis s) + 1) /\
  forall other,
    other <> String.append "no_" task ->
    Dashboard.anomaly_counts anomaly_items
      (redis (final (process_task env self e img_name scores task s)))
    !! other
    = Dashboard.anomaly_counts anomaly_items (redis s) !! other.
Proof.
  intros Hconf Hup1 Hup2 Hin.
  pose proof (status_of_violation self task _ Hconf) as Hstatus.
  assert (Hpre : Py.startswith "no_" (String.append "no_" task) = true).
  { change (String.append "no_" task)
      with (String "n" (String "o" (String "_" task))).
    unfold Py.startswith. cbn. now destruct task. }
  split.
  - rewrite anomaly_counts_lookup.
    replace (existsb _ anomaly_items) with true.
    + rewrite (process_task_counters env self e img_name scores task s _
                 Hup1 Hup2).
      rewrite Hstatus, Hpre, String.eqb_refl. reflexivity.
    + symmetry. apply List.existsb_exists.
      exists (String.append "no_" task). split; [exact Hin|].
      apply String.eqb_refl.
  - intros other Hother. rewrite !anomaly_counts_lookup.
    destruct (existsb _ anomaly_items); [|reflexivity].
    rewrite (process_task_counters env self e img_name scores task s _
               Hup1 Hup2).
    rewrite Hstatus, Hpre.
    replace (String.eqb _ (String.append other "_count")) with false.
    + cbn [andb]. now rewrite Z.add_0_r.
    + symmetry. apply String.eqb_neq. intros Heq.
      apply append_suffix_inj in Heq. congruence.
Qed.

Lemma dashboard_counts_violation_witness :
  Dashboard.anomaly_counts ["no_helmet"; "no_vest"]
    (redis (final (process_task Sample.env Sample.detector Sample.helmet_vest
                     "a.jpg" Sample.scores "vest" Sample.start)))
  !! String.append "no_" "vest"
  = Some (Redis.counter (String.append (String.append "no_" "vest") "_count")
            (redis Sample.start) + 1) /\
  forall other,
    other <> String.append "no_" "vest" ->
    Dashboard.anomaly_counts ["no_helmet"; "no_vest"]
      (redis (final (process_task Sample.env Sample.detector
                       Sample.helmet_vest "a.jpg" Sample.scores "vest"
                       Sample.start)))
    !! other
    = Dashboard.anomaly_counts ["no_helmet"; "no_vest"] (redis Sample.start)
      !! other.
Proof.
  apply (dashboard_counts_violation Sample.env Sample.detector
           Sample.helmet_vest "a.jpg" Sample.scores "vest" Sample.start
           ["no_helmet"; "no_vest"]).
  - vm_compute. reflexivity.
  - reflexivity.
  - reflexivity.
  - right. left. reflexivity.
Defined.
